(** * Pipeline execution engine: services, manager, client and frontend loop

    A shallow embedding of [sources/tools.py], [sources/ibm_realization.py]
    and [app.py].  Python objects that are shared between several owners
    (service objects, multiprocessing queues, worker processes) live in an
    explicit store, the [World]; references into it are indices.  Methods
    are functions in a small state-and-exception monad over the [World]. *)

From stdpp Require Import base list gmap strings.
From Stdlib Require Import Lia.

(** ** Python values carried by the queues and the socket *)

Inductive PyVal :=
  | VNone
  | VBool (b : bool)
  | VInt (z : Z)
  | VBytes (b : list Byte.byte)
  | VStr (s : string).

(** Python truth value, as tested by [if not data]. *)
Definition truthy (v : PyVal) : bool :=
  match v with
  | VNone => false
  | VBool b => b
  | VInt z => negb (Z.eqb z 0)
  | VBytes b => match b with [] => false | _ => true end
  | VStr s => match s with EmptyString => false | _ => true end
  end.

(** Exceptions the modelled code can raise.  [InvalidRef] stands for a
    reference that points outside the store; Python has no such
    references, and the invariants below show it never arises. *)
Inductive Exn := IndexError | AttributeError | QueueEmpty | InvalidRef.

(** ** The store *)

Abbreviation qid := nat.  (* reference to a multiprocessing.Queue *)
Abbreviation sid := nat.  (* reference to a ProcessService object *)
Abbreviation pid := nat.  (* handle of a multiprocessing.Process *)

Inductive ServiceClass := IbmSttService | AnswerService | IbmTtsService.

(** A [ProcessService] object: its class and its two buffer attributes,
    each either [None] or a reference to a queue. *)
Record ProcessService := mkService {
  cls : ServiceClass;
  input_buffer : option qid;
  output_buffer : option qid
}.

(** A worker process.  [Process(target=service.act)] followed by
    [process.start()] gives the child its own copy of the service object
    as it is at that moment; the queues stay shared. *)
Record Process := mkProcess {
  target : sid;
  self_copy : ProcessService;
  alive : bool
}.

(** What crosses the websocket, in order. *)
Inductive Event :=
  | Received (message : PyVal)
  | Sent (data : PyVal).

Record World := mkWorld {
  objs : list ProcessService;
  queues : list (list PyVal);
  procs : list Process;
  socket : list Event
}.

Definition set_objs (f : list ProcessService → list ProcessService) (w : World) : World :=
  mkWorld (f (objs w)) (queues w) (procs w) (socket w).
Definition set_queues (f : list (list PyVal) → list (list PyVal)) (w : World) : World :=
  mkWorld (objs w) (f (queues w)) (procs w) (socket w).
Definition set_procs (f : list Process → list Process) (w : World) : World :=
  mkWorld (objs w) (queues w) (f (procs w)) (socket w).
Definition set_socket (f : list Event → list Event) (w : World) : World :=
  mkWorld (objs w) (queues w) (procs w) (f (socket w)).

(** ** The monad *)

(** [Blocked] is the outcome of a call that never returns: a blocking read
    on a queue into which nothing is ever written. *)
Inductive Outcome (A : Type) :=
  | Ret (a : A)
  | Raise (e : Exn)
  | Blocked.
Arguments Ret {A} a.
Arguments Raise {A} e.
Arguments Blocked {A}.

Definition M (A : Type) : Type := World → Outcome A * World.

Definition ret {A} (a : A) : M A := λ w, (Ret a, w).
Definition raise {A} (e : Exn) : M A := λ w, (Raise e, w).
Definition bind {A B} (m : M A) (k : A → M B) : M B :=
  λ w, match m w with
       | (Ret a, w') => k a w'
       | (Raise e, w') => (Raise e, w')
       | (Blocked, w') => (Blocked, w')
       end.

Notation "'let!' x ':=' m 'in' k" := (bind m (λ x, k))
  (at level 10, x pattern, m at level 100, k at level 200).

(** ** multiprocessing.Queue *)

(** [Queue()] *)
Definition Queue_new : M qid :=
  λ w, (Ret (length (queues w)), set_queues (λ qs, qs ++ [[]]) w).

(** [buffer.put(data)]; the receiver may be [None]. *)
Definition Queue_put (buffer : option qid) (data : PyVal) : M unit :=
  λ w, match buffer with
       | None => (Raise AttributeError, w)
       | Some q =>
           match queues w !! q with
           | None => (Raise InvalidRef, w)
           | Some items => (Ret tt, set_queues (λ qs, <[q := items ++ [data]]> qs) w)
           end
       end.

(** [buffer.empty()] *)
Definition Queue_empty (buffer : option qid) : M bool :=
  λ w, match buffer with
       | None => (Raise AttributeError, w)
       | Some q =>
           match queues w !! q with
           | None => (Raise InvalidRef, w)
           | Some [] => (Ret true, w)
           | Some (_ :: _) => (Ret false, w)
           end
       end.

(** [buffer.get()] as a worker calls it: with nothing to read the worker
    makes no progress. *)
Definition Queue_wait (buffer : option qid) : M PyVal :=
  λ w, match buffer with
       | None => (Raise AttributeError, w)
       | Some q =>
           match queues w !! q with
           | None => (Raise InvalidRef, w)
           | Some [] => (Blocked, w)
           | Some (v :: items) => (Ret v, set_queues (λ qs, <[q := items]> qs) w)
           end
       end.

(** ** ProcessService *)

(** [ProcessService.__init__]: a new object with both buffers [None]. *)
Definition ProcessService_init (c : ServiceClass) : M sid :=
  λ w, (Ret (length (objs w)), set_objs (λ os, os ++ [mkService c None None]) w).

Definition get_obj (s : sid) : M ProcessService :=
  λ w, match objs w !! s with
       | None => (Raise InvalidRef, w)
       | Some o => (Ret o, w)
       end.

(** [set_input_buffer]: a plain assignment, whatever was there before. *)
Definition set_input_buffer (self : sid) (buffer : option qid) : M unit :=
  λ w, match objs w !! self with
       | None => (Raise InvalidRef, w)
       | Some o =>
           (Ret tt, set_objs (λ os, <[self := mkService (cls o) buffer (output_buffer o)]> os) w)
       end.

(** [set_output_buffer]: likewise. *)
Definition set_output_buffer (self : sid) (buffer : option qid) : M unit :=
  λ w, match objs w !! self with
       | None => (Raise InvalidRef, w)
       | Some o =>
           (Ret tt, set_objs (λ os, <[self := mkService (cls o) (input_buffer o) buffer]> os) w)
       end.

(** ** Manager *)

Record Manager := mkManager {
  services : list sid;
  processes : list pid
}.

(** The loop of [Manager.__init__]: [key] is the index given by
    [enumerate], [todo] what is left of the argument list, [self] the
    manager built so far. *)
Fixpoint init_loop (key : nat) (todo : list sid) (self : Manager) : M Manager :=
  match todo with
  | [] => ret self
  | service :: rest =>
      let! out_buf := Queue_new in
      let! in_buf :=
        (if Nat.eqb key 0 then
           let! q := Queue_new in ret (Some q)
         else
           match last (services self) with
           | None => raise IndexError
           | Some prev => let! o := get_obj prev in ret (output_buffer o)
           end) in
      let! _ := set_input_buffer service in_buf in
      let! _ := set_output_buffer service (Some out_buf) in
      init_loop (S key) rest (mkManager (services self ++ [service]) (processes self))
  end.

(** [Manager.__init__] *)
Definition Manager_init (svcs : list sid) : M Manager :=
  init_loop 0 svcs (mkManager [] []).

(** [Process(target=service.act, args=())] and [process.start()]. *)
Definition Process_start (service : sid) : M pid :=
  let! o := get_obj service in
  λ w, (Ret (length (procs w)), set_procs (λ ps, ps ++ [mkProcess service o true]) w).

(** The loop shared, word for word, by [Manager.start] and
    [Manager.__enter__]; each is given its own copy below. *)
Fixpoint start_loop (todo : list sid) (self : Manager) : M Manager :=
  match todo with
  | [] => ret self
  | service :: rest =>
      let! process := Process_start service in
      start_loop rest (mkManager (services self) (processes self ++ [process]))
  end.

(** [Manager.start] *)
Definition Manager_start (self : Manager) : M Manager :=
  start_loop (services self) self.

Fixpoint enter_loop (todo : list sid) (self : Manager) : M Manager :=
  match todo with
  | [] => ret self
  | service :: rest =>
      let! process := Process_start service in
      enter_loop rest (mkManager (services self) (processes self ++ [process]))
  end.

(** [Manager.__enter__]: the result is [self], after the loop. *)
Definition Manager_enter (self : Manager) : M Manager :=
  let! self := enter_loop (services self) self in
  ret self.

(** [Manager.__exit__]: [pass], so the result is [None] and [self] is not
    touched. *)
Definition Manager_exit (self : Manager) (exc_type exc_val exc_tb : PyVal) : M PyVal :=
  ret VNone.

(** [Manager.send] *)
Definition Manager_send (self : Manager) (data : PyVal) : M unit :=
  match services self !! 0 with
  | None => raise IndexError
  | Some first => let! o := get_obj first in Queue_put (input_buffer o) data
  end.

(** ** The services of [ibm_realization.py] and the worker processes *)

Section Engine.

(** The two cloud providers are outside the repository.  For an audio
    chunk the recognition provider calls [on_transcription] zero or more
    times, each time with a ranked list of candidates (dicts); for a text
    the synthesis provider calls [on_audio_stream] with each piece of
    audio. *)
Variable stt_provider : PyVal → list (list (gmap string PyVal)).
Variable tts_provider : PyVal → list PyVal.

(** [IbmSttService.receive_transcript] *)
Definition receive_transcript (transcript : list (gmap string PyVal)) : M PyVal :=
  match transcript with
  | [] => raise IndexError
  | best :: _ => ret (default VNone (best !! "transcript"%string))
  end.

(** [IbmSttService.on_transcription] *)
Definition on_transcription (self : ProcessService)
    (transcript : list (gmap string PyVal)) : M unit :=
  let! message := receive_transcript transcript in
  Queue_put (output_buffer self) message.

(** [IbmTtsService.on_audio_stream] *)
Definition on_audio_stream (self : ProcessService) (audio_data : PyVal) : M unit :=
  Queue_put (output_buffer self) audio_data.

Fixpoint for_each {A} (xs : list A) (body : A → M unit) : M unit :=
  match xs with
  | [] => ret tt
  | x :: rest => let! _ := body x in for_each rest body
  end.

(** One chunk through [IbmSttService.act]: the SDK reads it from the
    audio source, which is the input buffer, and reports to the
    callback. *)
Definition IbmSttService_act (self : ProcessService) : M unit :=
  let! chunk := Queue_wait (input_buffer self) in
  for_each (stt_provider chunk) (on_transcription self).

(** One turn of the loop of [IbmTtsService.act]. *)
Definition IbmTtsService_act (self : ProcessService) : M unit :=
  let! text := Queue_wait (input_buffer self) in
  for_each (tts_provider text) (on_audio_stream self).

(** One turn of the loop of [AnswerService.act]. *)
Definition AnswerService_act (self : ProcessService) : M unit :=
  let! text := Queue_wait (input_buffer self) in
  Queue_put (output_buffer self) text.

Definition act (self : ProcessService) : M unit :=
  match cls self with
  | IbmSttService => IbmSttService_act self
  | AnswerService => AnswerService_act self
  | IbmTtsService => IbmTtsService_act self
  end.

(** The operating system lets worker [p] run one turn.  A worker that
    waits for input stays as it is; one whose turn raises is dead from
    then on, and what it wrote before stays written. *)
Definition run_worker (p : pid) (w : World) : World :=
  match procs w !! p with
  | None => w
  | Some pr =>
      if alive pr then
        match act (self_copy pr) w with
        | (Ret _, w') => w'
        | (Blocked, _) => w
        | (Raise _, w') =>
            set_procs (λ ps, <[p := mkProcess (target pr) (self_copy pr) false]> ps) w'
        end
      else w
  end.

Definition run_workers (sched : list pid) : M unit :=
  λ w, (Ret tt, foldl (λ w p, run_worker p w) w sched).

(** [buffer.get(True, timeout)] in the main process.  Time is counted in
    turns of the workers: [sched] lists, in order, the workers that get a
    turn while the caller waits, one per unit of time.  An item is taken
    as soon as there is one; a wait with a timeout ends with
    [queue.Empty] once the time is used up or nothing runs any more; a
    wait without one never returns when nothing runs any more. *)
Fixpoint Queue_get_wait (q : qid) (timeout : option nat) (sched : list pid)
    (w : World) : Outcome PyVal * World :=
  match queues w !! q with
  | None => (Raise InvalidRef, w)
  | Some (v :: items) => (Ret v, set_queues (λ qs, <[q := items]> qs) w)
  | Some [] =>
      match timeout, sched with
      | Some 0, _ => (Raise QueueEmpty, w)
      | Some _, [] => (Raise QueueEmpty, w)
      | None, [] => (Blocked, w)
      | _, p :: sched' => Queue_get_wait q (Nat.pred <$> timeout) sched' (run_worker p w)
      end
  end.

(** [buffer.get(block, timeout)]; without [block] the timeout plays no
    part and an empty queue raises at once. *)
Definition Queue_get (buffer : option qid) (block : bool) (timeout : option nat)
    (sched : list pid) : M PyVal :=
  match buffer with
  | None => raise AttributeError
  | Some q =>
      if block then Queue_get_wait q timeout sched
      else Queue_get_wait q (Some 0) []
  end.

(** [Manager.receive] *)
Definition Manager_receive (self : Manager) (block : bool) (timeout : option nat)
    (sched : list pid) : M PyVal :=
  let! buffer :=
    (match last (services self) with
     | None => raise IndexError
     | Some s => let! o := get_obj s in ret (output_buffer o)
     end) in
  let! go := (if block then ret true
              else let! e := Queue_empty buffer in ret (negb e)) in
  if go then Queue_get buffer block timeout sched
  else ret VNone.

(** ** Client *)

Record Client := mkClient {
  manager : Manager;
  id : N;
  running : bool
}.

(** [Client.__init__]; [uuid] is what [uuid1()] returns. *)
Definition Client_init (svcs : list sid) (uuid : N) : M Client :=
  let! m := Manager_init svcs in
  ret (mkClient m uuid false).

(** ** The frontend loop of [app.py] *)

(** A message from the peer, with the turns the workers take while the
    handler is between [client.start()] and [client.receive(False)]
    ([busy]) and after the response, until the next message ([idle]). *)
Record Inbound := mkInbound {
  message : PyVal;
  busy : list pid;
  idle : list pid
}.

Definition websocket_recv (message : PyVal) : M unit :=
  λ w, (Ret tt, set_socket (λ evs, evs ++ [Received message]) w).

Definition websocket_send (data : PyVal) : M unit :=
  λ w, (Ret tt, set_socket (λ evs, evs ++ [Sent data]) w).

(** Lines 35-41 of [app.py]: the message goes into the chain, and the
    workers are started unless the client is marked as running. *)
Definition push_message (client : Client) (message : PyVal) : M Client :=
  let! _ := Manager_send (manager client) message in
  if negb (running client) then
    let! m := Manager_start (manager client) in
    ret (mkClient m (id client) true)
  else ret client.

(** Lines 43-51 of [app.py]: one poll of the chain, and one frame back to
    the peer. *)
Definition poll_and_respond (client : Client) : M unit :=
  let! data := Manager_receive (manager client) false None [] in
  let data := if negb (truthy data) then VBytes [] else data in
  websocket_send data.

(** The body of [async for message in websocket]. *)
Definition handle_message (client : Client) (i : Inbound) : M Client :=
  let! _ := websocket_recv (message i) in
  let! client := push_message client (message i) in
  let! _ := run_workers (busy i) in
  let! _ := poll_and_respond client in
  let! _ := run_workers (idle i) in
  ret client.

Fixpoint serve (client : Client) (inbound : list Inbound) : M Client :=
  match inbound with
  | [] => ret client
  | i :: rest => let! client := handle_message client i in serve client rest
  end.

(** [handle_connections] *)
Definition handle_connections (uuid : N) (inbound : list Inbound) : M Client :=
  let! stt_service := ProcessService_init IbmSttService in
  let! tts_service := ProcessService_init IbmTtsService in
  let! answer_service := ProcessService_init AnswerService in
  let services := [stt_service; answer_service; tts_service] in
  let! client := Client_init services uuid in
  serve client inbound.

(** ** States of a session and the passing of time *)

(** What can happen to a session once it is built: data is sent, the
    workers are started (any number of times), the flag is set, data is
    received in either mode, a worker takes a turn, and a frame crosses the
    socket. *)
Inductive session_step : Client * World → Client * World → Prop :=
  | step_send c w data o w' :
      Manager_send (manager c) data w = (o, w') →
      session_step (c, w) (c, w')
  | step_start c w m' w' :
      Manager_start (manager c) w = (Ret m', w') →
      session_step (c, w) (mkClient m' (id c) (running c), w')
  | step_running c w b :
      session_step (c, w) (mkClient (manager c) (id c) b, w)
  | step_receive c w block timeout sched o w' :
      Manager_receive (manager c) block timeout sched w = (o, w') →
      session_step (c, w) (c, w')
  | step_worker c w p :
      session_step (c, w) (c, run_worker p w)
  | step_socket c w ev :
      session_step (c, w) (c, set_socket (λ evs, evs ++ [ev]) w).

(** A session state: what [Client(services)] built from a non-empty list
    of existing stages, after any number of steps. *)
Definition session_state (c : Client) (w : World) : Prop :=
  ∃ (svcs : list sid) (uuid : N) (w0 : World) (c0 : Client) (w1 : World),
    svcs ≠ []
    ∧ Forall (λ s, s < length (objs w0)) svcs
    ∧ Client_init svcs uuid w0 = (Ret c0, w1)
    ∧ rtc session_step (c0, w1) (c, w).

(** The store after the workers of [sched] took their turns. *)
Definition turns (sched : list pid) (w : World) : World :=
  foldl (λ w p, run_worker p w) w sched.

(** The number of turns after which queue [q] first holds a unit, when
    the workers run as [sched] says. *)
Fixpoint arrival (q : qid) (sched : list pid) (w : World) : option nat :=
  match queues w !! q with
  | Some (_ :: _) => Some 0
  | _ => match sched with
         | [] => None
         | p :: sched' => S <$> arrival q sched' (run_worker p w)
         end
  end.

(** What the recognition stage puts on its output channel for the events
    of one chunk, and whether it gets through all of them: the first
    transcript of each event ([None] when the key is missing), up to the
    first event with no candidate. *)
Fixpoint heard (events : list (list (gmap string PyVal))) : list PyVal * bool :=
  match events with
  | [] => ([], true)
  | [] :: _ => ([], false)
  | (best :: _) :: rest =>
      let '(vs, ok) := heard rest in
      (default VNone (best !! "transcript"%string) :: vs, ok)
  end.

(** What a stage of class [c] writes for the unit [v] it has read, and
    whether its turn ends normally. *)
Definition emitted (c : ServiceClass) (v : PyVal) : list PyVal * bool :=
  match c with
  | IbmSttService => heard (stt_provider v)
  | AnswerService => ([v], true)
  | IbmTtsService => (tts_provider v, true)
  end.

(** [n] calls of [receive(False)], with their results in order. *)
Fixpoint receive_n (n : nat) (self : Manager) : M (list PyVal) :=
  match n with
  | 0 => ret []
  | S n' =>
      let! data := Manager_receive self false None [] in
      let! rest := receive_n n' self in
      ret (data :: rest)
  end.

(** The frontend loop as the design describes it, on the store directly:
    the message is put at the end of the entry channel [qe]; the workers
    are added unless the session is running; after the turns the workers
    take, the oldest unit of the exit channel [qx], if there is one, is
    taken; the payload is that unit, or the empty byte string when there
    was none or it is falsy; the payload is sent. *)
Definition message_model (qe qx : qid) (workers : list Process) (is_running : bool)
    (w : World) (i : Inbound) : World * PyVal :=
  let w1 := set_queues (λ qs, <[qe := default [] (qs !! qe) ++ [message i]]> qs)
              (set_socket (λ evs, evs ++ [Received (message i)]) w) in
  let w2 := if is_running then w1 else set_procs (λ ps, ps ++ workers) w1 in
  let w3 := turns (busy i) w2 in
  let polled := match queues w3 !! qx with
                | Some (v :: _) => Some v
                | _ => None
                end in
  let w4 := match queues w3 !! qx with
            | Some (_ :: items) => set_queues (λ qs, <[qx := items]> qs) w3
            | _ => w3
            end in
  let payload := match polled with
                 | Some v => if truthy v then v else VBytes []
                 | None => VBytes []
                 end in
  (turns (idle i) (set_socket (λ evs, evs ++ [Sent payload]) w4), payload).

Fixpoint frontend_model (qe qx : qid) (workers : list Process) (is_running : bool)
    (w : World) (inbound : list Inbound) : World * list PyVal :=
  match inbound with
  | [] => (w, [])
  | i :: rest =>
      let '(w1, r) := message_model qe qx workers is_running w i in
      let '(w', rs) := frontend_model qe qx workers true w1 rest in
      (w', r :: rs)
  end.

End Engine.

(** ** Vocabulary of the properties *)

(** The channel [Manager.send] writes to and the one [Manager.receive]
    reads from. *)
Definition entry_channel (self : Manager) (w : World) : option qid :=
  match services self !! 0 with
  | None => None
  | Some s => match objs w !! s with None => None | Some o => input_buffer o end
  end.

Definition exit_channel (self : Manager) (w : World) : option qid :=
  match last (services self) with
  | None => None
  | Some s => match objs w !! s with None => None | Some o => output_buffer o end
  end.

(** Closed form of the wiring [Manager.__init__] produces when the store
    holds [L] queues beforehand: the queue bound as output, and as input,
    of the stage at position [i]. *)
Definition out_chan (L i : nat) : qid :=
  match i with 0 => L | S _ => L + 1 + i end.
Definition in_chan (L i : nat) : qid :=
  match i with 0 => L + 1 | S j => out_chan L j end.

(** Three stages as their constructors leave them. *)
Definition three_unbound : World :=
  mkWorld [mkService IbmSttService None None;
           mkService AnswerService None None;
           mkService IbmTtsService None None] [] [] [].

(** The worker [Process_start] creates for stage [s]: a live process
    running that stage's [act] on the stage as it is in [w]. *)
Definition worker_of (w : World) (s : sid) : option Process :=
  (λ o, mkProcess s o true) <$> objs w !! s.

(** [quiet w w']: from [w] to [w'] no object was rebound, no queue or
    process was created and nothing crossed the socket; only the contents
    of queues and the liveness of processes may differ. *)
Definition quiet (w w' : World) : Prop :=
  objs w' = objs w
  ∧ length (queues w') = length (queues w)
  ∧ length (procs w') = length (procs w)
  ∧ socket w' = socket w.

(** A computation all of whose runs are quiet. *)
Definition is_quiet {A} (m : M A) : Prop := ∀ w, quiet w (m w).2.

(** The exit channel of the manager is a queue of the store. *)
Definition exit_bound (self : Manager) (w : World) : Prop :=
  ∃ q, exit_channel self w = Some q ∧ q < length (queues w).

(** [k] turns fit in the timeout. *)
Definition in_time (timeout : option nat) (k : nat) : bool :=
  match timeout with
  | None => true
  | Some t => k <=? t
  end.

(** A service whose buffers, where bound, are among the first [L] queues. *)
Definition refs_below (L : nat) (o : ProcessService) : Prop :=
  (∀ q, input_buffer o = Some q → q < L) ∧ (∀ q, output_buffer o = Some q → q < L).

(** A computation that leaves the queues from [L] on, the objects and the
    processes as they are. *)
Definition keeps_above {A} (L : nat) (m : M A) : Prop :=
  ∀ w, (∀ q, L ≤ q → queues (m w).2 !! q = queues w !! q)
       ∧ procs (m w).2 = procs w.

(** The turns that fall within the wait. *)
Definition in_window (timeout : option nat) (sched : list pid) : list pid :=
  match timeout with
  | None => sched
  | Some t => take t sched
  end.

(** The chain of a manager is usable in [w]: its stages exist, and its
    entry and exit channels are queues of the store. *)
Definition chain_ok (self : Manager) (w : World) : Prop :=
  Forall (λ s, s < length (objs w)) (services self)
  ∧ (∃ q, entry_channel self w = Some q ∧ q < length (queues w))
  ∧ exit_bound self w.

(** The frames of a connection: each message followed by its response. *)
Definition exchange (inbound : list Inbound) (responses : list PyVal) : list Event :=
  concat (zip_with (λ i r, [Received (message i); Sent r]) inbound responses).

(** The chain [Manager.__init__] builds from three unbound stages. *)
Definition three_wired : World :=
  mkWorld [mkService IbmSttService (Some 1) (Some 0);
           mkService AnswerService (Some 0) (Some 2);
           mkService IbmTtsService (Some 2) (Some 3)] [[]; []; []; []] [] [].

(** Providers that never call back. *)
Definition stt_silent : PyVal → list (list (gmap string PyVal)) := λ _, [].
Definition tts_silent : PyVal → list PyVal := λ _, [].

(** One passthrough stage as its constructor leaves it. *)
Definition one_unbound : World :=
  mkWorld [mkService AnswerService None None] [] [] [].

(** The session [Client([AnswerService()])] gives. *)
Definition passthrough_client : Client := mkClient (mkManager [0] []) 7 false.
Definition passthrough_world : World :=
  mkWorld [mkService AnswerService (Some 1) (Some 0)] [[]; []] [] [].

(** A session whose chain has produced an empty byte string. *)
Definition empty_unit_world : World :=
  mkWorld [mkService AnswerService (Some 1) (Some 0)] [[VBytes []]; []] [] [].

(** Stage [s] has both channels bound to queues of the store. *)
Definition bound_in (w : World) (s : sid) : Prop :=
  ∃ o qi qo, objs w !! s = Some o
             ∧ input_buffer o = Some qi ∧ output_buffer o = Some qo
             ∧ qi < length (queues w) ∧ qo < length (queues w).

(** Queue [q] is the input or the output channel of the stage. *)
Definition touches (self : ProcessService) (q : qid) : Prop :=
  input_buffer self = Some q ∨ output_buffer self = Some q.

(** A computation that changes no queue but those of the stage. *)
Definition keeps_others {A} (self : ProcessService) (m : M A) : Prop :=
  ∀ w q, ¬ touches self q → queues (m w).2 !! q = queues w !! q.

(** The three stages of the chain [handle_connections] builds when the
    store holds [L] queues beforehand, as [Manager.__init__] leaves them. *)
Definition stt_rec (L : nat) : ProcessService :=
  mkService IbmSttService (Some (L + 1)) (Some L).
Definition ans_rec (L : nat) : ProcessService :=
  mkService AnswerService (Some L) (Some (L + 2)).
Definition tts_rec (L : nat) : ProcessService :=
  mkService IbmTtsService (Some (L + 2)) (Some (L + 3)).

(** A stage as a worker may hold it: one of the three above, or one that
    knows only queues older than theirs. *)
Definition chain_copy (L : nat) (o : ProcessService) : Prop :=
  refs_below L o ∨ o = stt_rec L ∨ o = ans_rec L ∨ o = tts_rec L.

(** The store of a connection whose recognition stage has put nothing on
    its output channel so far. *)
Definition silent_world (L n : nat) (w : World) : Prop :=
  objs w !! n = Some (stt_rec L)
  ∧ objs w !! S (S n) = Some (ans_rec L)
  ∧ objs w !! S n = Some (tts_rec L)
  ∧ L + 3 < length (queues w)
  ∧ Forall (λ pr, chain_copy L (self_copy pr)) (procs w)
  ∧ queues w !! L = Some []
  ∧ queues w !! (L + 2) = Some []
  ∧ queues w !! (L + 3) = Some [].

(** A started passthrough chain with two units waiting at the entry. *)
Definition passthrough_running : World :=
  mkWorld [mkService AnswerService (Some 1) (Some 0)]
    [[]; [VBytes [Byte.x61]; VBytes [Byte.x62]]]
    [mkProcess 0 (mkService AnswerService (Some 1) (Some 0)) true] [].

(** A recognition provider that reports one event with no candidate, one
    that reports one candidate, and a synthesis provider with one piece of
    audio. *)
Definition stt_no_candidates : PyVal → list (list (gmap string PyVal)) := λ _, [[]].
Definition stt_hello : PyVal → list (list (gmap string PyVal)) :=
  λ _, [[ {[ "transcript"%string := VStr "hello" ]} ]].
Definition tts_beep : PyVal → list PyVal := λ _, [VBytes [Byte.x01; Byte.x02]].

(** The workers [Manager.start] creates for the chain of a connection, and
    what the store of a connection keeps once the chain is wired. *)
Definition chain_workers (L n : nat) : list Process :=
  [mkProcess n (stt_rec L) true;
   mkProcess (S (S n)) (ans_rec L) true;
   mkProcess (S n) (tts_rec L) true].

Definition conn_inv (L n : nat) (w : World) : Prop :=
  objs w !! n = Some (stt_rec L)
  ∧ objs w !! S (S n) = Some (ans_rec L)
  ∧ objs w !! S n = Some (tts_rec L)
  ∧ L + 3 < length (queues w).

(** * Properties *)

(** ** The channels of a chain *)

Lemma init_loop_rest (todo : list sid) : ∀ (k : nat) (self : Manager) (w : World)
    (sp : sid) (op : ProcessService),
  NoDup todo →
  Forall (λ s, s < length (objs w)) todo →
  last (services self) = Some sp →
  sp ∉ todo →
  objs w !! sp = Some op →
  ∃ w', init_loop (S k) todo self w
          = (Ret (mkManager (services self ++ todo) (processes self)), w')
    ∧ procs w' = procs w ∧ socket w' = socket w
    ∧ queues w' = queues w ++ replicate (length todo) []
    ∧ length (objs w') = length (objs w)
    ∧ (∀ s, s ∉ todo → objs w' !! s = objs w !! s)
    ∧ (∀ i s, todo !! i = Some s →
         ∃ o, objs w !! s = Some o
           ∧ objs w' !! s = Some (mkService (cls o)
               (match i with 0 => output_buffer op | S j => Some (length (queues w) + j) end)
               (Some (length (queues w) + i)))).
Proof.
  induction todo as [|s rest IH]; intros k self w sp op Hnd Hval Hlast Hsp Hop.
  - exists w. simpl. unfold ret. rewrite app_nil_r.
    destruct self; simpl. split_and!; auto; [by rewrite app_nil_r|].
    intros i s Hi. rewrite lookup_nil in Hi. discriminate.
  - apply NoDup_cons in Hnd as [Hs Hnd].
    apply Forall_cons in Hval as [Hsv Hval].
    destruct (lookup_lt_is_Some_2 (objs w) s Hsv) as [o Ho].
    set (o1 := mkService (cls o) (output_buffer op) (output_buffer o)).
    set (o2 := mkService (cls o) (output_buffer op) (Some (length (queues w)))).
    set (w2 := mkWorld (<[s := o2]> (<[s := o1]> (objs w))) (queues w ++ [[]])
                 (procs w) (socket w)).
    assert (Hstep : init_loop (S k) (s :: rest) self w
                    = init_loop (S (S k)) rest
                        (mkManager (services self ++ [s]) (processes self)) w2).
    { simpl. unfold bind at 1. unfold Queue_new at 1. simpl.
      unfold bind at 1. rewrite Hlast. unfold bind at 1, get_obj at 1. simpl.
      rewrite Hop. unfold ret at 1. unfold bind at 1, set_input_buffer at 1. simpl.
      rewrite Ho. unfold bind at 1, set_output_buffer at 1. simpl.
      rewrite list_lookup_insert_eq by done. reflexivity. }
    assert (Hs2 : objs w2 !! s = Some o2).
    { simpl. apply list_lookup_insert_eq. by rewrite length_insert. }
    destruct (IH (S k) (mkManager (services self ++ [s]) (processes self)) w2 s o2)
      as (w' & Hrun & Hprocs & Hsock & Hq & Hlen & Hframe & Hel); auto.
    { simpl. by rewrite !length_insert. }
    { simpl. apply last_snoc. }
    exists w'. rewrite Hstep, Hrun. simpl. rewrite <- app_assoc. simpl.
    split_and!; auto.
    + rewrite Hq. simpl. by rewrite <- app_assoc.
    + rewrite Hlen. simpl. by rewrite !length_insert.
    + intros s' Hs'. apply not_elem_of_cons in Hs' as [Hne Hs'].
      rewrite Hframe by done. simpl. by rewrite !list_lookup_insert_ne.
    + intros i s' Hi. destruct i as [|j]; simpl in Hi.
      * inversion Hi; subst s'. exists o. split; [done|].
        rewrite Hframe by done. rewrite Hs2. unfold o2. do 3 f_equal. lia.
      * destruct (Hel j s' Hi) as (o' & Ho' & Ho'').
        assert (s' ≠ s).
        { intros ->. apply Hs. apply list_elem_of_lookup. eauto. }
        exists o'. split.
        { rewrite <- Ho'. simpl. by rewrite !list_lookup_insert_ne. }
        rewrite Ho''. simpl. rewrite length_app. simpl.
        destruct j; simpl; do 3 f_equal; lia.
Qed.

(** [Manager.__init__] on distinct, existing services: the result, and the
    store it leaves, in closed form. *)
Lemma Manager_init_spec (svcs : list sid) (w : World) :
  NoDup svcs →
  Forall (λ s, s < length (objs w)) svcs →
  ∃ w', Manager_init svcs w = (Ret (mkManager svcs []), w')
    ∧ procs w' = procs w ∧ socket w' = socket w
    ∧ queues w' = queues w ++ replicate (match svcs with [] => 0 | _ => S (length svcs) end) []
    ∧ length (objs w') = length (objs w)
    ∧ (∀ s, s ∉ svcs → objs w' !! s = objs w !! s)
    ∧ (∀ i s, svcs !! i = Some s →
         ∃ o, objs w !! s = Some o
           ∧ objs w' !! s = Some (mkService (cls o)
               (Some (in_chan (length (queues w)) i))
               (Some (out_chan (length (queues w)) i)))).
Proof.
  intros Hnd Hval. destruct svcs as [|s rest].
  - exists w. unfold Manager_init. simpl. unfold ret.
    split_and!; auto; [by rewrite app_nil_r|].
    intros i s Hi. rewrite lookup_nil in Hi. discriminate.
  - apply NoDup_cons in Hnd as [Hs Hnd].
    apply Forall_cons in Hval as [Hsv Hval].
    destruct (lookup_lt_is_Some_2 (objs w) s Hsv) as [o Ho].
    set (L := length (queues w)).
    set (o1 := mkService (cls o) (Some (L + 1)) (output_buffer o)).
    set (o2 := mkService (cls o) (Some (L + 1)) (Some L)).
    set (w2 := mkWorld (<[s := o2]> (<[s := o1]> (objs w))) ((queues w ++ [[]]) ++ [[]])
                 (procs w) (socket w)).
    assert (Hstep : Manager_init (s :: rest) w = init_loop 1 rest (mkManager [s] []) w2).
    { unfold Manager_init. simpl. unfold bind at 1. unfold Queue_new at 1. simpl.
      unfold bind at 1. unfold bind at 1. unfold Queue_new at 1. simpl.
      unfold bind at 1, set_input_buffer at 1. simpl.
      rewrite Ho. unfold bind at 1, set_output_buffer at 1. simpl.
      rewrite list_lookup_insert_eq by done. simpl.
      rewrite length_app. simpl. fold L. unfold w2, o2, o1.
      replace (S L) with (L + 1) by lia. reflexivity. }
    assert (Hs2 : objs w2 !! s = Some o2).
    { simpl. apply list_lookup_insert_eq. by rewrite length_insert. }
    destruct (init_loop_rest rest 0 (mkManager [s] []) w2 s o2)
      as (w' & Hrun & Hprocs & Hsock & Hq & Hlen & Hframe & Hel); auto.
    { simpl. by rewrite !length_insert. }
    exists w'. rewrite Hstep, Hrun. simpl.
    split_and!; auto.
    + rewrite Hq. simpl. by rewrite <- !app_assoc.
    + rewrite Hlen. simpl. by rewrite !length_insert.
    + intros s' Hs'. apply not_elem_of_cons in Hs' as [Hne Hs'].
      rewrite Hframe by done. simpl. by rewrite !list_lookup_insert_ne.
    + intros i s' Hi. destruct i as [|j]; simpl in Hi.
      * inversion Hi; subst s'. exists o. split; [done|].
        rewrite Hframe by done. rewrite Hs2. reflexivity.
      * destruct (Hel j s' Hi) as (o' & Ho' & Ho'').
        assert (s' ≠ s).
        { intros ->. apply Hs. apply list_elem_of_lookup. eauto. }
        exists o'. split.
        { rewrite <- Ho'. simpl. by rewrite !list_lookup_insert_ne. }
        rewrite Ho''. simpl. rewrite !length_app. simpl. fold L.
        destruct j; simpl; do 3 f_equal; lia.
Qed.

Lemma out_chan_bounds (L n i : nat) : i < n → L ≤ out_chan L i < L + S n.
Proof. destruct i; simpl; lia. Qed.

Lemma in_chan_bounds (L n i : nat) : i < n → L ≤ in_chan L i < L + S n.
Proof. destruct i as [|[|j]]; simpl; lia. Qed.

Lemma out_chan_not_entry (L i : nat) : out_chan L i ≠ in_chan L 0.
Proof. destruct i; simpl; lia. Qed.

(** C1.  [Manager.__init__] on a non-empty list of distinct stages returns
    a manager holding that list and no process handle, and in the store it
    leaves: the output channel of every stage is the input channel of the
    next; stage 0 reads from an entry channel that did not exist before,
    that no stage writes to; the channel [receive] reads from is the output
    of the last stage, so that exactly one channel per stage and one entry
    channel were added, all empty, after the queues that existed; every
    stage has both channels bound to one of the new queues; and the table
    of worker processes is what it was. *)
Theorem Manager_init_wires_chain (svcs : list sid) (w : World) :
  svcs ≠ [] →
  NoDup svcs →
  Forall (λ s, s < length (objs w)) svcs →
  ∃ (w' : World) (entry exit_ : qid),
    Manager_init svcs w = (Ret (mkManager svcs []), w')
    ∧ (∀ i s s', svcs !! i = Some s → svcs !! S i = Some s' →
         ∃ o o' q, objs w' !! s = Some o ∧ objs w' !! s' = Some o'
                   ∧ output_buffer o = Some q ∧ input_buffer o' = Some q)
    ∧ entry_channel (mkManager svcs []) w' = Some entry
    ∧ length (queues w) ≤ entry
    ∧ (∀ s o, s ∈ svcs → objs w' !! s = Some o → output_buffer o ≠ Some entry)
    ∧ exit_channel (mkManager svcs []) w' = Some exit_
    ∧ (∃ s o, last svcs = Some s ∧ objs w' !! s = Some o ∧ output_buffer o = Some exit_)
    ∧ queues w' = queues w ++ replicate (length svcs + 1) []
    ∧ (∀ s, s ∈ svcs →
         ∃ o qi qo, objs w' !! s = Some o
                    ∧ input_buffer o = Some qi ∧ output_buffer o = Some qo
                    ∧ length (queues w) ≤ qi < length (queues w')
                    ∧ length (queues w) ≤ qo < length (queues w'))
    ∧ procs w' = procs w.
Proof.
  intros Hne Hnd Hval.
  destruct (Manager_init_spec svcs w Hnd Hval)
    as (w' & Hrun & Hprocs & _ & Hq & _ & _ & Hel).
  set (L := length (queues w)) in *.
  assert (Hq' : queues w' = queues w ++ replicate (length svcs + 1) []).
  { rewrite Hq. destruct svcs; [done|]. do 2 f_equal. simpl. lia. }
  assert (Hlen : length (queues w') = L + S (length svcs)).
  { rewrite Hq', length_app, length_replicate. fold L. lia. }
  destruct svcs as [|s0 rest] eqn:Esvcs; [done|]. rewrite <- Esvcs in *.
  assert (H0 : svcs !! 0 = Some s0) by (by rewrite Esvcs).
  destruct (Hel 0 s0 H0) as (o0 & _ & Ho0).
  assert (Hlast : ∃ sl, last svcs = Some sl ∧ svcs !! pred (length svcs) = Some sl).
  { rewrite last_lookup. destruct (svcs !! pred (length svcs)) eqn:E; [eauto|].
    apply lookup_ge_None in E. rewrite Esvcs in E. simpl in E. lia. }
  destruct Hlast as (sl & Hsl & Hsl').
  destruct (Hel _ sl Hsl') as (ol & _ & Hol).
  exists w', (in_chan L 0), (out_chan L (pred (length svcs))).
  split_and!; auto.
  - intros i s s' Hi Hi'.
    destruct (Hel i s Hi) as (o & _ & Ho). destruct (Hel (S i) s' Hi') as (o' & _ & Ho').
    eexists _, _, (out_chan L i). split_and!; eauto.
  - unfold entry_channel. simpl. rewrite H0, Ho0. reflexivity.
  - simpl. lia.
  - intros s o Hs Ho. apply list_elem_of_lookup in Hs as [i Hi].
    destruct (Hel i s Hi) as (o' & _ & Ho'). rewrite Ho' in Ho. inversion Ho; subst o.
    simpl. intros [=]. by eapply out_chan_not_entry.
  - unfold exit_channel. simpl. rewrite Hsl, Hol. reflexivity.
  - exists sl. eexists. split_and!; eauto.
  - intros s Hs. apply list_elem_of_lookup in Hs as [i Hi].
    destruct (Hel i s Hi) as (o' & _ & Ho').
    assert (i < length svcs) by (eapply lookup_lt_Some; eauto).
    eexists _, _, _. split_and!; eauto; simpl; rewrite ?Hlen;
      first [eapply out_chan_bounds | eapply in_chan_bounds]; eauto.
Qed.

Lemma Manager_init_wires_chain_witness :
  ∃ (w' : World) (entry exit_ : qid),
    Manager_init [0; 1; 2] three_unbound = (Ret (mkManager [0; 1; 2] []), w')
    ∧ (∀ i s s', [0; 1; 2] !! i = Some s → [0; 1; 2] !! S i = Some s' →
         ∃ o o' q, objs w' !! s = Some o ∧ objs w' !! s' = Some o'
                   ∧ output_buffer o = Some q ∧ input_buffer o' = Some q)
    ∧ entry_channel (mkManager [0; 1; 2] []) w' = Some entry
    ∧ length (queues three_unbound) ≤ entry
    ∧ (∀ s o, s ∈ [0; 1; 2] → objs w' !! s = Some o → output_buffer o ≠ Some entry)
    ∧ exit_channel (mkManager [0; 1; 2] []) w' = Some exit_
    ∧ (∃ s o, last [0; 1; 2] = Some s ∧ objs w' !! s = Some o
              ∧ output_buffer o = Some exit_)
    ∧ queues w' = queues three_unbound ++ replicate (length [0; 1; 2] + 1) []
    ∧ (∀ s, s ∈ [0; 1; 2] →
         ∃ o qi qo, objs w' !! s = Some o
                    ∧ input_buffer o = Some qi ∧ output_buffer o = Some qo
                    ∧ length (queues three_unbound) ≤ qi < length (queues w')
                    ∧ length (queues three_unbound) ≤ qo < length (queues w'))
    ∧ procs w' = procs three_unbound.
Proof.
  apply (Manager_init_wires_chain [0; 1; 2] three_unbound).
  - discriminate.
  - apply (bool_decide_unpack _). vm_compute. reflexivity.
  - apply (bool_decide_unpack _). vm_compute. reflexivity.
Defined.

(** ** Starting the workers *)

Lemma bind_ret_r {A} (m : M A) (w : World) : bind m ret w = m w.
Proof. unfold bind, ret. destruct (m w) as [[a|e|] w']; reflexivity. Qed.

Lemma start_loop_spec (todo : list sid) : ∀ (self : Manager) (w : World),
  Forall (λ s, s < length (objs w)) todo →
  ∃ new, mapM (worker_of w) todo = Some new
    ∧ start_loop todo self w
      = (Ret (mkManager (services self)
                (processes self ++ seq (length (procs w)) (length todo))),
         set_procs (λ ps, ps ++ new) w).
Proof.
  induction todo as [|s rest IH]; intros self w Hval.
  - exists []. split; [done|]. simpl. unfold ret, set_procs.
    rewrite !app_nil_r. by destruct self, w.
  - apply Forall_cons in Hval as [Hs Hval].
    destruct (lookup_lt_is_Some_2 (objs w) s Hs) as [o Ho].
    set (w1 := set_procs (λ ps, ps ++ [mkProcess s o true]) w).
    destruct (IH (mkManager (services self) (processes self ++ [length (procs w)])) w1)
      as (new & Hnew & Hrun); [done|].
    exists (mkProcess s o true :: new). split.
    + rewrite mapM_Some in Hnew |- *. constructor; [|done].
      unfold worker_of. by rewrite Ho.
    + simpl. unfold bind at 1. unfold Process_start, bind at 1, get_obj. rewrite Ho.
      fold w1. rewrite Hrun. simpl. rewrite length_app. simpl.
      rewrite <- !app_assoc. simpl. unfold set_procs. simpl.
      rewrite <- app_assoc. simpl. by rewrite Nat.add_1_r.
Qed.

Lemma enter_loop_start_loop (todo : list sid) : ∀ (self : Manager) (w : World),
  enter_loop todo self w = start_loop todo self w.
Proof.
  induction todo as [|s rest IH]; intros self w; [done|].
  simpl. unfold bind. destruct (Process_start s w) as [[p| |] w']; auto.
Qed.

Lemma worker_of_objs (w w' : World) (s : sid) :
  objs w' = objs w → worker_of w' s = worker_of w s.
Proof. unfold worker_of. by intros ->. Qed.

Lemma mapM_worker_of_objs (w w' : World) (todo : list sid) :
  objs w' = objs w → mapM (worker_of w') todo = mapM (worker_of w) todo.
Proof.
  intros H. induction todo as [|s rest IH]; [done|].
  simpl. by rewrite IH, (worker_of_objs w w' s H).
Qed.

(** C4.  On a manager whose stages exist in the store, [start] returns
    normally, appends to the table of processes one live worker per stage,
    in order, each running the [act] of its stage, and appends as many
    handles, those of the new workers, to [processes]; stages and channels
    are untouched.  A second [start] does all of that again: the same
    workers are created once more, and [processes] has grown by twice the
    number of stages.  In particular a manager with no handle has, after
    its first [start], as many handles as stages. *)
Theorem Manager_start_one_worker_per_stage (self : Manager) (w : World) :
  Forall (λ s, s < length (objs w)) (services self) →
  ∃ (self1 self2 : Manager) (w1 w2 : World) (new : list Process),
    Manager_start self w = (Ret self1, w1)
    ∧ services self1 = services self
    ∧ procs w1 = procs w ++ new
    ∧ Forall2 (λ s p, target p = s ∧ objs w !! s = Some (self_copy p) ∧ alive p = true)
        (services self) new
    ∧ processes self1
      = processes self ++ seq (length (procs w)) (length (services self))
    ∧ objs w1 = objs w ∧ queues w1 = queues w
    ∧ (processes self = [] → length (processes self1) = length (services self))
    ∧ Manager_start self1 w1 = (Ret self2, w2)
    ∧ services self2 = services self
    ∧ procs w2 = procs w ++ new ++ new
    ∧ processes self2
      = processes self1 ++ seq (length (procs w1)) (length (services self))
    ∧ length (processes self2)
      = length (processes self) + 2 * length (services self).
Proof.
  intros Hval.
  destruct (start_loop_spec (services self) self w Hval) as (new & Hnew & Hrun).
  set (self1 := mkManager (services self)
                  (processes self ++ seq (length (procs w)) (length (services self)))).
  set (w1 := set_procs (λ ps, ps ++ new) w).
  destruct (start_loop_spec (services self1) self1 w1 Hval) as (new' & Hnew' & Hrun').
  rewrite (mapM_worker_of_objs w w1) in Hnew' by done.
  assert (new' = new) as ->.
  { unfold self1 in Hnew'. simpl in Hnew'. congruence. }
  exists self1, (mkManager (services self1)
                   (processes self1 ++ seq (length (procs w1)) (length (services self1)))),
    w1, (set_procs (λ ps, ps ++ new) w1), new.
  split_and!; auto.
  - apply mapM_Some in Hnew. eapply Forall2_impl; [exact Hnew|].
    intros s p Hp. unfold worker_of in Hp.
    destruct (objs w !! s) as [o|]; [|done]. simpl in Hp. by inversion Hp.
  - intros Hnil. simpl. rewrite Hnil. simpl. by rewrite length_seq.
  - simpl. by rewrite <- app_assoc.
  - simpl. rewrite !length_app, !length_seq. lia.
Qed.

Lemma Manager_start_one_worker_per_stage_witness :
  ∃ (self1 self2 : Manager) (w1 w2 : World) (new : list Process),
    Manager_start (mkManager [0; 1; 2] []) three_unbound = (Ret self1, w1)
    ∧ services self1 = [0; 1; 2]
    ∧ procs w1 = procs three_unbound ++ new
    ∧ Forall2 (λ s p, target p = s ∧ objs three_unbound !! s = Some (self_copy p)
                      ∧ alive p = true) [0; 1; 2] new
    ∧ processes self1 = [] ++ seq (length (procs three_unbound)) 3
    ∧ objs w1 = objs three_unbound ∧ queues w1 = queues three_unbound
    ∧ ((@nil pid) = [] → length (processes self1) = 3)
    ∧ Manager_start self1 w1 = (Ret self2, w2)
    ∧ services self2 = [0; 1; 2]
    ∧ procs w2 = procs three_unbound ++ new ++ new
    ∧ processes self2 = processes self1 ++ seq (length (procs w1)) 3
    ∧ length (processes self2) = 0 + 2 * 3.
Proof.
  apply (Manager_start_one_worker_per_stage (mkManager [0; 1; 2] []) three_unbound).
  apply (bool_decide_unpack _). vm_compute. reflexivity.
Defined.

(** C10.  [__enter__] is [start]: from every manager and every store the
    two give the same outcome, the same manager (which is what [__enter__]
    returns) and the same store; where the stages exist, that is one new
    handle per stage.  [__exit__] returns [None] and leaves the store, and
    so the workers, as they were. *)
Theorem Manager_enter_is_start (self : Manager) (w : World) :
  Manager_enter self w = Manager_start self w
  ∧ (Forall (λ s, s < length (objs w)) (services self) →
     ∃ w', Manager_enter self w
           = (Ret (mkManager (services self)
                     (processes self ++ seq (length (procs w)) (length (services self)))),
              w')
           ∧ length (procs w') = length (procs w) + length (services self)
           ∧ objs w' = objs w ∧ queues w' = queues w)
  ∧ (∀ exc_type exc_val exc_tb,
       Manager_exit self exc_type exc_val exc_tb w = (Ret VNone, w)).
Proof.
  assert (Heq : Manager_enter self w = Manager_start self w).
  { unfold Manager_enter, Manager_start.
    etrans; [apply (bind_ret_r (enter_loop (services self) self) w)|].
    apply enter_loop_start_loop. }
  split_and!; auto.
  intros Hval. rewrite Heq.
  destruct (start_loop_spec (services self) self w Hval) as (new & Hnew & Hrun).
  eexists. split; [exact Hrun|]. simpl. split_and!; auto.
  rewrite length_app. by rewrite (length_mapM _ _ _ Hnew).
Qed.

(** ** What sending, receiving and the workers leave alone *)

Lemma quiet_refl (w : World) : quiet w w.
Proof. by repeat split. Qed.

Lemma quiet_trans (w1 w2 w3 : World) : quiet w1 w2 → quiet w2 w3 → quiet w1 w3.
Proof.
  intros (? & ? & ? & ?) (? & ? & ? & ?). repeat split; congruence.
Qed.

Lemma quiet_set_queue (w : World) (q : qid) (items : list PyVal) :
  quiet w (set_queues (λ qs, <[q := items]> qs) w).
Proof. repeat split. simpl. apply length_insert. Qed.

Lemma is_quiet_ret {A} (a : A) : is_quiet (ret a).
Proof. intros w. apply quiet_refl. Qed.

Lemma is_quiet_raise {A} (e : Exn) : is_quiet (@raise A e).
Proof. intros w. apply quiet_refl. Qed.

Lemma is_quiet_bind {A B} (m : M A) (k : A → M B) :
  is_quiet m → (∀ a, is_quiet (k a)) → is_quiet (bind m k).
Proof.
  intros Hm Hk w. unfold bind. specialize (Hm w).
  destruct (m w) as [[a|e|] w1]; simpl in *; auto.
  eapply quiet_trans; [exact Hm|]. apply Hk.
Qed.

Lemma is_quiet_get_obj (s : sid) : is_quiet (get_obj s).
Proof. intros w. unfold get_obj. destruct (objs w !! s); apply quiet_refl. Qed.

Lemma is_quiet_Queue_put (buffer : option qid) (data : PyVal) :
  is_quiet (Queue_put buffer data).
Proof.
  intros w. unfold Queue_put. destruct buffer as [q|]; [|apply quiet_refl].
  destruct (queues w !! q); [apply quiet_set_queue|apply quiet_refl].
Qed.

Lemma is_quiet_Queue_empty (buffer : option qid) : is_quiet (Queue_empty buffer).
Proof.
  intros w. unfold Queue_empty. destruct buffer as [q|]; [|apply quiet_refl].
  destruct (queues w !! q) as [[|]|]; apply quiet_refl.
Qed.

Lemma is_quiet_Queue_wait (buffer : option qid) : is_quiet (Queue_wait buffer).
Proof.
  intros w. unfold Queue_wait. destruct buffer as [q|]; [|apply quiet_refl].
  destruct (queues w !! q) as [[|]|]; try apply quiet_refl. apply quiet_set_queue.
Qed.

Lemma is_quiet_for_each {A} (xs : list A) (body : A → M unit) :
  (∀ x, is_quiet (body x)) → is_quiet (for_each xs body).
Proof.
  intros Hb. induction xs as [|x rest IH]; simpl.
  - apply is_quiet_ret.
  - apply is_quiet_bind; auto.
Qed.

Lemma is_quiet_Manager_send (self : Manager) (data : PyVal) :
  is_quiet (Manager_send self data).
Proof.
  unfold Manager_send. destruct (services self !! 0); [|apply is_quiet_raise].
  apply is_quiet_bind; [apply is_quiet_get_obj|]. intros o. apply is_quiet_Queue_put.
Qed.

Section Properties.

Variable stt_provider : PyVal → list (list (gmap string PyVal)).
Variable tts_provider : PyVal → list PyVal.

Lemma is_quiet_on_transcription (self : ProcessService)
    (transcript : list (gmap string PyVal)) :
  is_quiet (on_transcription self transcript).
Proof.
  unfold on_transcription. apply is_quiet_bind.
  - unfold receive_transcript. destruct transcript; [apply is_quiet_raise|apply is_quiet_ret].
  - intros v. apply is_quiet_Queue_put.
Qed.

Lemma is_quiet_act (self : ProcessService) :
  is_quiet (act stt_provider tts_provider self).
Proof.
  unfold act. destruct (cls self).
  - apply is_quiet_bind; [apply is_quiet_Queue_wait|]. intros chunk.
    apply is_quiet_for_each. intros t. apply is_quiet_on_transcription.
  - apply is_quiet_bind; [apply is_quiet_Queue_wait|]. intros text.
    apply is_quiet_Queue_put.
  - apply is_quiet_bind; [apply is_quiet_Queue_wait|]. intros text.
    apply is_quiet_for_each. intros a. apply is_quiet_Queue_put.
Qed.

Lemma quiet_run_worker (p : pid) (w : World) :
  quiet w (run_worker stt_provider tts_provider p w).
Proof.
  unfold run_worker. destruct (procs w !! p) as [pr|]; [|apply quiet_refl].
  destruct (alive pr); [|apply quiet_refl].
  pose proof (is_quiet_act (self_copy pr) w) as Hq.
  destruct (act stt_provider tts_provider (self_copy pr) w) as [[[]|e|] w']; simpl in Hq;
    auto using quiet_refl.
  destruct Hq as (? & ? & ? & ?). repeat split; simpl; auto.
  by rewrite length_insert.
Qed.

Lemma is_quiet_run_workers (sched : list pid) :
  is_quiet (run_workers stt_provider tts_provider sched).
Proof.
  intros w. unfold run_workers. simpl. revert w.
  induction sched as [|p rest IH]; intros w; simpl; [apply quiet_refl|].
  eapply quiet_trans; [apply (quiet_run_worker p)|]. apply IH.
Qed.

Lemma quiet_Queue_get_wait (q : qid) (sched : list pid) :
  ∀ (timeout : option nat) (w : World),
    quiet w (Queue_get_wait stt_provider tts_provider q timeout sched w).2.
Proof.
  induction sched as [|p rest IH]; intros timeout w; simpl.
  - destruct (queues w !! q) as [[|v items]|]; simpl; auto using quiet_refl, quiet_set_queue.
    destruct timeout as [[|t]|]; apply quiet_refl.
  - destruct (queues w !! q) as [[|v items]|]; simpl; auto using quiet_refl, quiet_set_queue.
    destruct timeout as [[|t]|]; simpl; try apply quiet_refl.
    + eapply quiet_trans; [apply (quiet_run_worker p)|]. apply IH.
    + eapply quiet_trans; [apply (quiet_run_worker p)|]. apply IH.
Qed.

Lemma is_quiet_Queue_get (buffer : option qid) (block : bool) (timeout : option nat)
    (sched : list pid) :
  is_quiet (Queue_get stt_provider tts_provider buffer block timeout sched).
Proof.
  intros w. unfold Queue_get. destruct buffer as [q|]; [|apply quiet_refl].
  destruct block; apply quiet_Queue_get_wait.
Qed.

Lemma is_quiet_Manager_receive (self : Manager) (block : bool) (timeout : option nat)
    (sched : list pid) :
  is_quiet (Manager_receive stt_provider tts_provider self block timeout sched).
Proof.
  unfold Manager_receive. apply is_quiet_bind.
  - destruct (last (services self)); [|apply is_quiet_raise].
    apply is_quiet_bind; [apply is_quiet_get_obj|]. intros o. apply is_quiet_ret.
  - intros buffer. apply is_quiet_bind.
    + destruct block; [apply is_quiet_ret|].
      apply is_quiet_bind; [apply is_quiet_Queue_empty|]. intros e. apply is_quiet_ret.
    + intros [|]; [apply is_quiet_Queue_get|apply is_quiet_ret].
Qed.

(** *** Reading the exit channel *)

Lemma Manager_receive_nonblocking (self : Manager) (w : World) (q : qid)
    (items : list PyVal) (timeout : option nat) (sched : list pid) :
  exit_channel self w = Some q →
  queues w !! q = Some items →
  Manager_receive stt_provider tts_provider self false timeout sched w
  = match items with
    | [] => (Ret VNone, w)
    | v :: rest => (Ret v, set_queues (λ qs, <[q := rest]> qs) w)
    end.
Proof.
  unfold exit_channel, Manager_receive. intros Hq Hitems.
  destruct (last (services self)) as [s|]; [|done].
  unfold bind at 1. unfold bind at 1, get_obj.
  destruct (objs w !! s) as [o|]; [|done]. simpl. rewrite Hq.
  unfold bind at 1. unfold bind at 1, Queue_empty. rewrite Hitems.
  destruct items as [|v rest]; simpl; [done|]. by rewrite Hitems.
Qed.

Lemma Manager_receive_blocking (self : Manager) (w : World) (q : qid)
    (timeout : option nat) (sched : list pid) :
  exit_channel self w = Some q →
  Manager_receive stt_provider tts_provider self true timeout sched w
  = Queue_get_wait stt_provider tts_provider q timeout sched w.
Proof.
  unfold exit_channel, Manager_receive. intros Hq.
  destruct (last (services self)) as [s|]; [|done].
  unfold bind at 1. unfold bind at 1, get_obj.
  destruct (objs w !! s) as [o|]; [|done]. simpl. by rewrite Hq.
Qed.

(** *** The states of a session *)

Lemma exit_bound_quiet (self : Manager) (w w' : World) :
  quiet w w' → exit_bound self w → exit_bound self w'.
Proof.
  intros (Ho & Hq & _ & _) (q & Hexit & Hlt). exists q.
  unfold exit_channel in *. rewrite Ho. split; [done|lia].
Qed.

Lemma init_loop_cons_0 (s : sid) (rest : list sid) (self : Manager) (w : World)
    (o : ProcessService) :
  objs w !! s = Some o →
  init_loop 0 (s :: rest) self w
  = init_loop 1 rest (mkManager (services self ++ [s]) (processes self))
      (mkWorld (<[s := mkService (cls o) (Some (S (length (queues w))))
                          (Some (length (queues w)))]> (objs w))
         (queues w ++ [[]; []]) (procs w) (socket w)).
Proof.
  intros Ho. assert (s < length (objs w)) by (eapply lookup_lt_Some; eauto).
  simpl. unfold bind at 1. unfold Queue_new at 1. simpl.
  unfold bind at 1. unfold bind at 1. unfold Queue_new at 1. simpl.
  unfold bind at 1, set_input_buffer at 1. simpl.
  rewrite Ho. unfold bind at 1, set_output_buffer at 1. simpl.
  rewrite list_lookup_insert_eq by done. simpl.
  unfold set_objs, set_queues. simpl.
  rewrite list_insert_insert_eq, length_app, <- app_assoc. simpl.
  by rewrite Nat.add_1_r.
Qed.

Lemma init_loop_cons_S (k : nat) (s : sid) (rest : list sid) (self : Manager)
    (w : World) (o : ProcessService) (sp : sid) (op : ProcessService) :
  objs w !! s = Some o →
  last (services self) = Some sp →
  objs w !! sp = Some op →
  init_loop (S k) (s :: rest) self w
  = init_loop (S (S k)) rest (mkManager (services self ++ [s]) (processes self))
      (mkWorld (<[s := mkService (cls o) (output_buffer op)
                          (Some (length (queues w)))]> (objs w))
         (queues w ++ [[]]) (procs w) (socket w)).
Proof.
  intros Ho Hlast Hop. assert (s < length (objs w)) by (eapply lookup_lt_Some; eauto).
  simpl. unfold bind at 1. unfold Queue_new at 1. simpl.
  unfold bind at 1. rewrite Hlast. unfold bind at 1, get_obj at 1. simpl.
  rewrite Hop. unfold ret at 1. unfold bind at 1, set_input_buffer at 1. simpl.
  rewrite Ho. unfold bind at 1, set_output_buffer at 1. simpl.
  rewrite list_lookup_insert_eq by done. simpl.
  unfold set_objs, set_queues. simpl.
  by rewrite list_insert_insert_eq.
Qed.

(** However the argument list aliases, [Manager.__init__] returns and
    leaves the exit channel bound to a queue of the store. *)
Lemma init_loop_exit (todo : list sid) : ∀ (k : nat) (self : Manager) (w : World),
  Forall (λ s, s < length (objs w)) todo →
  (k = 0 ∨ ∃ sp, last (services self) = Some sp ∧ sp < length (objs w)) →
  ∃ m' w', init_loop k todo self w = (Ret m', w')
    ∧ services m' = services self ++ todo
    ∧ processes m' = processes self
    ∧ (todo ≠ [] → exit_bound m' w').
Proof.
  induction todo as [|s rest IH]; intros k self w Hval Hk.
  - exists self, w. simpl. by rewrite app_nil_r.
  - apply Forall_cons in Hval as [Hs Hval].
    destruct (lookup_lt_is_Some_2 (objs w) s Hs) as [o Ho].
    assert (Hgo : ∃ ib w2, init_loop k (s :: rest) self w
                = init_loop (S k) rest (mkManager (services self ++ [s]) (processes self)) w2
              ∧ w2 = mkWorld (<[s := mkService (cls o) ib (Some (length (queues w)))]> (objs w))
                       (queues w2) (procs w) (socket w)
              ∧ length (queues w) < length (queues w2)).
    { destruct k as [|k].
      - eexists _, _. split; [by apply init_loop_cons_0|]. split; [done|].
        simpl. rewrite length_app. simpl. lia.
      - destruct Hk as [|(sp & Hlast & Hsp)]; [done|].
        destruct (lookup_lt_is_Some_2 (objs w) sp Hsp) as [op Hop].
        eexists _, _. split; [by eapply init_loop_cons_S|]. split; [done|].
        simpl. rewrite length_app. simpl. lia. }
    destruct Hgo as (ib & w2 & Hstep & Hw2 & Hlt).
    assert (Hs2 : objs w2 !! s
                  = Some (mkService (cls o) ib (Some (length (queues w))))).
    { rewrite Hw2. simpl. by apply list_lookup_insert_eq. }
    assert (Hlen2 : length (objs w2) = length (objs w)).
    { rewrite Hw2. simpl. apply length_insert. }
    destruct (IH (S k) (mkManager (services self ++ [s]) (processes self)) w2)
      as (m' & w' & Hrun & Hsv & Hpr & Hexit).
    { by rewrite Hlen2. }
    { right. exists s. simpl. rewrite last_snoc, Hlen2. done. }
    exists m', w'. rewrite Hstep, Hrun. simpl in *. rewrite <- app_assoc in Hsv.
    split_and!; auto. intros _.
    destruct rest as [|s' rest']; [|by apply Hexit].
    simpl in Hrun. inversion Hrun; subst m' w'.
    exists (length (queues w)). split; [|done].
    unfold exit_channel. simpl. by rewrite last_snoc, Hs2.
Qed.

Lemma session_step_exit_bound (c c' : Client) (w w' : World) :
  session_step stt_provider tts_provider (c, w) (c', w') →
  exit_bound (manager c) w → exit_bound (manager c') w'.
Proof.
  intros Hstep.
  inversion Hstep as [c1 w1 data o w1' Hrun | c1 w1 m' w1' Hrun | c1 w1 b
                     | c1 w1 block timeout sched o w1' Hrun | c1 w1 p | c1 w1 ev];
    subst; intros Hb.
  - eapply exit_bound_quiet; [|exact Hb].
    pose proof (is_quiet_Manager_send (manager c') data w) as Hq.
    by rewrite Hrun in Hq.
  - unfold Manager_start in Hrun.
    destruct Hb as (q & Hexit & Hlt).
    assert (Hinv : ∀ todo self w0 m1 w1, start_loop todo self w0 = (Ret m1, w1) →
              services m1 = services self ∧ objs w1 = objs w0 ∧ queues w1 = queues w0).
    { clear. induction todo as [|s rest IH]; intros self w0 m1 w1 Hrun; simpl in Hrun.
      - by inversion Hrun.
      - unfold bind at 1 in Hrun. unfold Process_start, bind, get_obj in Hrun.
        destruct (objs w0 !! s) as [o|]; [|done].
        apply IH in Hrun as (? & ? & ?). simpl in *. done. }
    apply Hinv in Hrun as (Hs & Ho & Hq).
    exists q. unfold exit_channel in *. simpl. rewrite Hs, Ho, Hq. done.
  - done.
  - eapply exit_bound_quiet; [|exact Hb].
    pose proof (is_quiet_Manager_receive (manager c') block timeout sched w) as Hq.
    by rewrite Hrun in Hq.
  - eapply exit_bound_quiet; [|exact Hb]. apply quiet_run_worker.
  - exact Hb.
Qed.

Lemma session_state_exit_bound (c : Client) (w : World) :
  session_state stt_provider tts_provider c w → exit_bound (manager c) w.
Proof.
  intros (svcs & uuid & w0 & c0 & w1 & Hne & Hval & Hinit & Hsteps).
  assert (Hb0 : exit_bound (manager c0) w1).
  { unfold Client_init, Manager_init, bind in Hinit.
    destruct (init_loop_exit svcs 0 (mkManager [] []) w0 Hval) as (m' & w' & Hrun & _ & _ & Hex);
      [by left|].
    rewrite Hrun in Hinit. inversion Hinit; subst. simpl. by apply Hex. }
  clear Hinit.
  remember (c0, w1) as x eqn:Ex. remember (c, w) as y eqn:Ey.
  revert c0 w1 Ex Hb0. induction Hsteps as [x|x [c2 w2] y Hstep Hrest IH];
    intros c0 w1 Ex Hb0; subst.
  - by inversion Ex; subst.
  - eapply IH; eauto. eapply session_step_exit_bound; eauto.
Qed.

(** C3.  In every session state, [receive] with [block] false returns at
    once, whatever the timeout and whatever the workers would do: [None],
    with the store untouched, when the exit channel is empty, and otherwise
    the oldest unit of the exit channel, which it removes.  It does not
    raise and it does not wait. *)
Theorem receive_nonblocking_in_every_state (c : Client) (w : World)
    (timeout : option nat) (sched : list pid) :
  session_state stt_provider tts_provider c w →
  ∃ (q : qid) (items : list PyVal),
    exit_channel (manager c) w = Some q
    ∧ queues w !! q = Some items
    ∧ Manager_receive stt_provider tts_provider (manager c) false timeout sched w
      = match items with
        | [] => (Ret VNone, w)
        | v :: rest => (Ret v, set_queues (λ qs, <[q := rest]> qs) w)
        end.
Proof.
  intros Hst. destruct (session_state_exit_bound c w Hst) as (q & Hexit & Hlt).
  destruct (lookup_lt_is_Some_2 (queues w) q Hlt) as [items Hitems].
  exists q, items. split_and!; auto.
  by apply Manager_receive_nonblocking.
Qed.

(** *** Waiting on the exit channel *)

Lemma Queue_get_wait_spec (q : qid) (sched : list pid) :
  ∀ (timeout : option nat) (w : World),
    q < length (queues w) →
    match arrival stt_provider tts_provider q sched w with
    | Some k =>
        if in_time timeout k then
          ∃ v rest,
            queues (turns stt_provider tts_provider (take k sched) w) !! q = Some (v :: rest)
            ∧ Queue_get_wait stt_provider tts_provider q timeout sched w
              = (Ret v, set_queues (λ qs, <[q := rest]> qs)
                          (turns stt_provider tts_provider (take k sched) w))
        else
          ∃ w', Queue_get_wait stt_provider tts_provider q timeout sched w
                = (Raise QueueEmpty, w')
    | None =>
        ∃ w', Queue_get_wait stt_provider tts_provider q timeout sched w
              = (match timeout with Some _ => Raise QueueEmpty | None => Blocked end, w')
    end.
Proof.
  induction sched as [|p rest IH]; intros timeout w Hq;
    destruct (lookup_lt_is_Some_2 (queues w) q Hq) as [items Hitems]; simpl; rewrite Hitems.
  - destruct items as [|v items].
    + destruct timeout as [[|t]|]; eauto.
    + assert (in_time timeout 0 = true) as -> by (by destruct timeout).
      exists v, items. simpl. by rewrite Hitems.
  - destruct items as [|v items].
    + assert (Hq' : q < length (queues (run_worker stt_provider tts_provider p w))).
      { destruct (quiet_run_worker p w) as (_ & -> & _). done. }
      destruct timeout as [[|t]|]; simpl.
      * destruct (arrival stt_provider tts_provider q rest _); simpl; eauto.
      * specialize (IH (Some t) _ Hq').
        destruct (arrival stt_provider tts_provider q rest _) as [k|]; simpl in *; [|done].
        destruct (k <=? t); done.
      * specialize (IH None _ Hq').
        destruct (arrival stt_provider tts_provider q rest _) as [k|]; simpl in *; done.
    + assert (in_time timeout 0 = true) as -> by (by destruct timeout).
      exists v, items. simpl. by rewrite Hitems.
Qed.

(** C7.  In every session state, [receive] with [block] true and a
    timeout of [t] turns returns the first unit that reaches the exit
    channel, removing it, when that takes at most [t] turns of the workers;
    when it takes longer, or no unit ever arrives, the call raises
    [queue.Empty] and returns no value.  Without a timeout it returns the
    first unit to arrive, however long that takes, and never returns when
    none does. *)
Theorem receive_blocking_waits_or_times_out (c : Client) (w : World)
    (sched : list pid) :
  session_state stt_provider tts_provider c w →
  ∃ q : qid,
    exit_channel (manager c) w = Some q
    ∧ (∀ t : nat,
         match arrival stt_provider tts_provider q sched w with
         | Some k =>
             if k <=? t then
               ∃ v rest,
                 queues (turns stt_provider tts_provider (take k sched) w) !! q = Some (v :: rest)
                 ∧ Manager_receive stt_provider tts_provider (manager c) true (Some t) sched w
                   = (Ret v, set_queues (λ qs, <[q := rest]> qs)
                               (turns stt_provider tts_provider (take k sched) w))
             else
               ∃ w', Manager_receive stt_provider tts_provider (manager c) true (Some t) sched w
                     = (Raise QueueEmpty, w')
         | None =>
             ∃ w', Manager_receive stt_provider tts_provider (manager c) true (Some t) sched w
                   = (Raise QueueEmpty, w')
         end)
    ∧ match arrival stt_provider tts_provider q sched w with
      | Some k =>
          ∃ v rest,
            queues (turns stt_provider tts_provider (take k sched) w) !! q = Some (v :: rest)
            ∧ Manager_receive stt_provider tts_provider (manager c) true None sched w
              = (Ret v, set_queues (λ qs, <[q := rest]> qs)
                          (turns stt_provider tts_provider (take k sched) w))
      | None =>
          ∃ w', Manager_receive stt_provider tts_provider (manager c) true None sched w
                = (Blocked, w')
      end.
Proof.
  intros Hst. destruct (session_state_exit_bound c w Hst) as (q & Hexit & Hlt).
  exists q. split; [done|]. split.
  - intros t. rewrite (Manager_receive_blocking _ _ q) by done.
    apply (Queue_get_wait_spec q sched (Some t) w Hlt).
  - rewrite (Manager_receive_blocking _ _ q) by done.
    apply (Queue_get_wait_spec q sched None w Hlt).
Qed.

(** *** Workers of other chains *)

Lemma keeps_above_ret {A} (L : nat) (a : A) : keeps_above L (ret a).
Proof. by intros w. Qed.

Lemma keeps_above_raise {A} (L : nat) (e : Exn) : keeps_above L (@raise A e).
Proof. by intros w. Qed.

Lemma keeps_above_bind {A B} (L : nat) (m : M A) (k : A → M B) :
  keeps_above L m → (∀ a, keeps_above L (k a)) → keeps_above L (bind m k).
Proof.
  intros Hm Hk w. unfold bind. destruct (Hm w) as [Hq Hp].
  destruct (m w) as [[a|e|] w1]; simpl in *; auto.
  destruct (Hk a w1) as [Hq' Hp']. split; [|congruence].
  intros q Hle. by rewrite Hq', Hq.
Qed.

Lemma keeps_above_Queue_put (L : nat) (buffer : option qid) (data : PyVal) :
  (∀ q, buffer = Some q → q < L) → keeps_above L (Queue_put buffer data).
Proof.
  intros Hb w. unfold Queue_put. destruct buffer as [q0|]; [|done].
  destruct (queues w !! q0); [|done]. simpl. split; [|done].
  intros q Hle. apply list_lookup_insert_ne. specialize (Hb q0 eq_refl). lia.
Qed.

Lemma keeps_above_Queue_wait (L : nat) (buffer : option qid) :
  (∀ q, buffer = Some q → q < L) → keeps_above L (Queue_wait buffer).
Proof.
  intros Hb w. unfold Queue_wait. destruct buffer as [q0|]; [|done].
  destruct (queues w !! q0) as [[|v items]|]; [done| |done]. simpl. split; [|done].
  intros q Hle. apply list_lookup_insert_ne. specialize (Hb q0 eq_refl). lia.
Qed.

Lemma keeps_above_for_each {A} (L : nat) (xs : list A) (body : A → M unit) :
  (∀ x, keeps_above L (body x)) → keeps_above L (for_each xs body).
Proof.
  intros Hb. induction xs as [|x rest IH]; simpl.
  - apply keeps_above_ret.
  - apply keeps_above_bind; auto.
Qed.

Lemma keeps_above_act (L : nat) (self : ProcessService) :
  refs_below L self → keeps_above L (act stt_provider tts_provider self).
Proof.
  intros [Hin Hout]. unfold act. destruct (cls self).
  - apply keeps_above_bind; [by apply keeps_above_Queue_wait|]. intros chunk.
    apply keeps_above_for_each. intros t. unfold on_transcription.
    apply keeps_above_bind.
    + unfold receive_transcript.
      destruct t; [apply keeps_above_raise|apply keeps_above_ret].
    + intros v. by apply keeps_above_Queue_put.
  - apply keeps_above_bind; [by apply keeps_above_Queue_wait|]. intros text.
    by apply keeps_above_Queue_put.
  - apply keeps_above_bind; [by apply keeps_above_Queue_wait|]. intros text.
    apply keeps_above_for_each. intros a. by apply keeps_above_Queue_put.
Qed.

(** A turn of a worker that knows only queues below [L]: the queues from
    [L] on are as before, and so is every other process. *)
Lemma run_worker_other (L : nat) (p : pid) (pr : Process) (w : World) :
  procs w !! p = Some pr →
  refs_below L (self_copy pr) →
  let w' := run_worker stt_provider tts_provider p w in
  (∀ q, L ≤ q → queues w' !! q = queues w !! q)
  ∧ (∀ p', p' ≠ p → procs w' !! p' = procs w !! p')
  ∧ (∃ pr', procs w' !! p = Some pr' ∧ self_copy pr' = self_copy pr).
Proof.
  intros Hp Hrefs. unfold run_worker. rewrite Hp.
  destruct (alive pr); [|by eauto].
  destruct (keeps_above_act L (self_copy pr) Hrefs w) as [Hq Hprocs].
  destruct (act stt_provider tts_provider (self_copy pr) w) as [[[]|e|] w1];
    simpl in *; [rewrite Hprocs; by eauto| |by eauto].
  split_and!; auto.
  - intros p' Hne. rewrite list_lookup_insert_ne by done. by rewrite Hprocs.
  - exists (mkProcess (target pr) (self_copy pr) false). split; [|done].
    apply list_lookup_insert_eq. rewrite Hprocs. by eapply lookup_lt_Some.
Qed.

(** *** A chain of one passthrough stage *)

Lemma in_window_cons (timeout : option nat) (p p0 : pid) (rest : list pid) :
  p0 ∈ in_window timeout (p :: rest) →
  timeout ≠ Some 0 ∧ (p = p0 ∨ p0 ∈ in_window (Nat.pred <$> timeout) rest).
Proof.
  destruct timeout as [[|t]|]; simpl; intros H.
  - by apply elem_of_nil in H.
  - apply elem_of_cons in H as [->|H]; auto.
  - apply elem_of_cons in H as [->|H]; auto.
Qed.

Lemma Queue_get_wait_ready (q : qid) (v : PyVal) (items : list PyVal)
    (timeout : option nat) (sched : list pid) (w : World) :
  queues w !! q = Some (v :: items) →
  Queue_get_wait stt_provider tts_provider q timeout sched w
  = (Ret v, set_queues (λ qs, <[q := items]> qs) w).
Proof. intros H. destruct sched; simpl; by rewrite H. Qed.

Lemma Queue_get_wait_turn (q : qid) (timeout : option nat) (p : pid)
    (rest : list pid) (w : World) :
  queues w !! q = Some [] →
  timeout ≠ Some 0 →
  Queue_get_wait stt_provider tts_provider q timeout (p :: rest) w
  = Queue_get_wait stt_provider tts_provider q (Nat.pred <$> timeout) rest
      (run_worker stt_provider tts_provider p w).
Proof. intros H Ht. simpl. rewrite H. by destruct timeout as [[|t]|]. Qed.

(** The turn of a live passthrough worker with one unit to read. *)
Lemma passthrough_turn (L : qid) (p0 : pid) (s : sid) (x : PyVal) (w : World) :
  queues w !! S L = Some [x] →
  queues w !! L = Some [] →
  procs w !! p0
    = Some (mkProcess s (mkService AnswerService (Some (S L)) (Some L)) true) →
  run_worker stt_provider tts_provider p0 w
  = set_queues (λ qs, <[L := [x]]> qs) (set_queues (λ qs, <[S L := []]> qs) w).
Proof.
  intros Hin Hout Hp0. unfold run_worker. rewrite Hp0. simpl.
  unfold act, AnswerService_act, bind, Queue_wait, Queue_put. simpl.
  rewrite Hin. simpl. rewrite list_lookup_insert_ne by lia. by rewrite Hout.
Qed.

Lemma passthrough_wait (L : qid) (p0 : pid) (s : sid) (x : PyVal) (sched : list pid) :
  ∀ (timeout : option nat) (w : World),
    queues w !! S L = Some [x] →
    queues w !! L = Some [] →
    procs w !! p0
      = Some (mkProcess s (mkService AnswerService (Some (S L)) (Some L)) true) →
    (∀ p pr, p ≠ p0 → procs w !! p = Some pr → refs_below L (self_copy pr)) →
    p0 ∈ in_window timeout sched →
    ∃ w', Queue_get_wait stt_provider tts_provider L timeout sched w = (Ret x, w').
Proof.
  induction sched as [|p rest IH]; intros timeout w Hin Hout Hp0 Hothers Hsched.
  - destruct timeout; simpl in Hsched; [rewrite take_nil in Hsched|];
      by apply elem_of_nil in Hsched.
  - apply in_window_cons in Hsched as [Ht Hsched].
    rewrite Queue_get_wait_turn by done.
    destruct (decide (p = p0)) as [->|Hne].
    + rewrite (passthrough_turn L p0 s x w) by done.
      eexists. apply Queue_get_wait_ready. simpl.
      apply list_lookup_insert_eq. rewrite length_insert. by eapply lookup_lt_Some.
    + destruct Hsched as [?|Hsched]; [done|].
      destruct (procs w !! p) as [pr|] eqn:Hp.
      * destruct (run_worker_other L p pr w Hp (Hothers p pr Hne Hp))
          as (Hq & Hpo & pr' & Hpr' & Hcopy).
        apply IH; auto.
        -- by rewrite Hq by lia.
        -- by rewrite Hq by lia.
        -- by rewrite Hpo by done.
        -- intros p' pr2 Hne' Hp'. destruct (decide (p' = p)) as [->|Hne2].
           ++ rewrite Hpr' in Hp'. inversion Hp'; subst pr2. rewrite Hcopy.
              by eapply Hothers.
           ++ rewrite Hpo in Hp' by done. by eapply Hothers.
      * assert (Hid : run_worker stt_provider tts_provider p w = w).
        { unfold run_worker. by rewrite Hp. }
        rewrite Hid. by apply IH.
Qed.

(** C5.  A chain built from one [AnswerService], started, into which the
    bytes [x] are sent: [receive] with [block] true returns [x], for every
    [x], whenever the worker of the stage gets a turn within the wait
    (within the timeout, when there is one), whatever turns the workers
    that ran before, on queues of their own, take in between. *)
Theorem passthrough_round_trip (w : World) (s : sid) (o : ProcessService)
    (x : list Byte.byte) (timeout : option nat) (sched : list pid) :
  objs w !! s = Some o →
  cls o = AnswerService →
  Forall (λ pr, refs_below (length (queues w)) (self_copy pr)) (procs w) →
  length (procs w) ∈ in_window timeout sched →
  ∃ (self self' : Manager) (w1 w2 w3 w4 : World),
    Manager_init [s] w = (Ret self, w1)
    ∧ Manager_start self w1 = (Ret self', w2)
    ∧ Manager_send self' (VBytes x) w2 = (Ret (), w3)
    ∧ Manager_receive stt_provider tts_provider self' true timeout sched w3
      = (Ret (VBytes x), w4).
Proof.
  intros Ho Hcls Hprocs Hsched.
  set (L := length (queues w)).
  set (o1 := mkService AnswerService (Some (S L)) (Some L)).
  set (w1 := mkWorld (<[s := o1]> (objs w)) (queues w ++ [[]; []]) (procs w) (socket w)).
  set (w2 := set_procs (λ ps, ps ++ [mkProcess s o1 true]) w1).
  set (w3 := set_queues (λ qs, <[S L := [VBytes x]]> qs) w2).
  assert (Hs : s < length (objs w)) by (by eapply lookup_lt_Some).
  assert (Hs1 : objs w1 !! s = Some o1) by (by apply list_lookup_insert_eq).
  assert (HL : (queues w ++ [[]; []]) !! L = Some []).
  { rewrite lookup_app_r by done. fold L. by rewrite Nat.sub_diag. }
  assert (HSL : (queues w ++ [[]; []]) !! S L = Some []).
  { rewrite lookup_app_r by (fold L; lia). fold L.
    by replace (S L - L) with 1 by lia. }
  assert (Hinit : Manager_init [s] w = (Ret (mkManager [s] []), w1)).
  { unfold Manager_init. rewrite (init_loop_cons_0 s [] _ w o Ho). simpl.
    unfold ret, w1, o1. by rewrite Hcls. }
  assert (Hstart : Manager_start (mkManager [s] []) w1
                   = (Ret (mkManager [s] [length (procs w)]), w2)).
  { unfold Manager_start. simpl. unfold bind at 1. unfold Process_start, bind, get_obj.
    by rewrite Hs1. }
  assert (Hsend : Manager_send (mkManager [s] [length (procs w)]) (VBytes x) w2
                  = (Ret (), w3)).
  { unfold Manager_send. simpl. unfold bind, get_obj. simpl.
    unfold set_objs; simpl. rewrite list_lookup_insert_eq by done. simpl.
    by rewrite HSL. }
  assert (Hexit : exit_channel (mkManager [s] [length (procs w)]) w3 = Some L).
  { unfold exit_channel. simpl. by rewrite list_lookup_insert_eq by done. }
  destruct (passthrough_wait L (length (procs w)) s (VBytes x) sched timeout w3)
    as [w4 Hw4]; auto.
  - simpl. apply list_lookup_insert_eq. by eapply lookup_lt_Some.
  - simpl. rewrite list_lookup_insert_ne by lia. done.
  - simpl. rewrite lookup_app_r by done. by rewrite Nat.sub_diag.
  - intros p pr Hne Hp. simpl in Hp.
    assert (p < length (procs w ++ [mkProcess s o1 true])) by (by eapply lookup_lt_Some).
    rewrite length_app in *. simpl in *.
    rewrite lookup_app_l in Hp by lia.
    rewrite Forall_forall in Hprocs. apply Hprocs.
    apply list_elem_of_lookup. eauto.
  - exists (mkManager [s] []), (mkManager [s] [length (procs w)]), w1, w2, w3, w4.
    split_and!; auto.
    by rewrite (Manager_receive_blocking _ _ L).
Qed.

(** *** The frontend loop *)

Lemma bind_Ret {A B} (m : M A) (k : A → M B) (w w' : World) (a : A) :
  m w = (Ret a, w') → bind m k w = k a w'.
Proof. intros H. unfold bind. by rewrite H. Qed.

Lemma Manager_send_ok (self : Manager) (data : PyVal) (w : World) (q : qid)
    (items : list PyVal) :
  entry_channel self w = Some q →
  queues w !! q = Some items →
  Manager_send self data w
  = (Ret (), set_queues (λ qs, <[q := items ++ [data]]> qs) w).
Proof.
  unfold entry_channel, Manager_send. intros Hq Hitems.
  destruct (services self !! 0) as [s|]; [|done].
  unfold bind, get_obj. destruct (objs w !! s) as [o|]; [|done].
  unfold Queue_put. by rewrite Hq, Hitems.
Qed.

(** C9.  Whenever the handler polls, if the exit channel is empty, so that
    [receive(False)] gives [None], or if its oldest unit is falsy (the
    empty byte string, the empty string, [None], zero, [False]), the frame
    sent to the peer is the empty byte string, and the socket shows nothing
    else: the two cases leave the same trace on the socket. *)
Theorem poll_and_respond_falsy (c : Client) (w : World) (q : qid)
    (items : list PyVal) :
  exit_channel (manager c) w = Some q →
  queues w !! q = Some items →
  (items = [] ∨ ∃ v rest, items = v :: rest ∧ truthy v = false) →
  ∃ (data : PyVal) (w' : World),
    Manager_receive stt_provider tts_provider (manager c) false None [] w = (Ret data, w')
    ∧ truthy data = false
    ∧ poll_and_respond stt_provider tts_provider c w
      = (Ret (), set_socket (λ evs, evs ++ [Sent (VBytes [])]) w')
    ∧ Forall (λ v, truthy v = false)
        [VNone; VBytes []; VStr EmptyString; VInt 0; VBool false].
Proof.
  intros Hexit Hitems Hfalsy.
  pose proof (Manager_receive_nonblocking (manager c) w q items None [] Hexit Hitems) as Hrecv.
  unfold poll_and_respond.
  destruct Hfalsy as [->|(v & rest & -> & Hv)].
  - exists VNone, w. split_and!; auto.
    + by rewrite (bind_Ret _ _ _ _ _ Hrecv).
    + by repeat constructor.
  - exists v, (set_queues (λ qs, <[q := rest]> qs) w). split_and!; auto.
    + rewrite (bind_Ret _ _ _ _ _ Hrecv). by rewrite Hv.
    + by repeat constructor.
Qed.

Lemma chain_ok_same (self self' : Manager) (w w' : World) :
  services self' = services self →
  objs w' = objs w →
  length (queues w') = length (queues w) →
  chain_ok self w → chain_ok self' w'.
Proof.
  intros Hs Ho Hq (Hval & (qe & He & Hlt) & (qx & Hx & Hlt')).
  unfold chain_ok, exit_bound, entry_channel, exit_channel in *.
  rewrite Hs, Ho, Hq. split_and!; eauto.
Qed.

Lemma push_message_spec (c : Client) (data : PyVal) (w : World) :
  chain_ok (manager c) w →
  ∃ c' w', push_message c data w = (Ret c', w')
    ∧ services (manager c') = services (manager c)
    ∧ id c' = id c
    ∧ running c' = true
    ∧ processes (manager c')
      = processes (manager c)
        ++ (if running c then [] else seq (length (procs w)) (length (services (manager c))))
    ∧ length (procs w')
      = length (procs w) + (if running c then 0 else length (services (manager c)))
    ∧ objs w' = objs w ∧ length (queues w') = length (queues w)
    ∧ socket w' = socket w
    ∧ (∀ q items, entry_channel (manager c) w = Some q → queues w !! q = Some items →
         queues w' = <[q := items ++ [data]]> (queues w)).
Proof.
  intros (Hval & (qe & He & Hlt) & _).
  destruct (lookup_lt_is_Some_2 (queues w) qe Hlt) as [items Hitems].
  unfold push_message.
  rewrite (bind_Ret _ _ _ _ _ (Manager_send_ok (manager c) data w qe items He Hitems)).
  set (w1 := set_queues _ w).
  destruct (running c) eqn:Hrun; simpl.
  - exists c, w1. unfold ret. rewrite app_nil_r. split_and!; auto.
    + simpl. apply length_insert.
    + intros q its Hq Hits. simpl. congruence.
  - destruct (start_loop_spec (services (manager c)) (manager c) w1)
      as (new & Hnew & Hstart); [done|].
    unfold Manager_start. rewrite (bind_Ret _ _ _ _ _ Hstart).
    eexists _, _. split; [reflexivity|]. simpl. split_and!; auto.
    + rewrite length_app. by rewrite (length_mapM _ _ _ Hnew).
    + apply length_insert.
    + intros q its Hq Hits. congruence.
Qed.

Lemma poll_and_respond_spec (c : Client) (w : World) :
  exit_bound (manager c) w →
  ∃ r w', poll_and_respond stt_provider tts_provider c w
          = (Ret (), set_socket (λ evs, evs ++ [Sent r]) w')
    ∧ (r = VBytes [] ∨ truthy r = true)
    ∧ quiet w w'.
Proof.
  intros (q & Hexit & Hlt).
  destruct (lookup_lt_is_Some_2 (queues w) q Hlt) as [items Hitems].
  pose proof (Manager_receive_nonblocking (manager c) w q items None [] Hexit Hitems) as Hrecv.
  unfold poll_and_respond.
  destruct items as [|v rest]; rewrite (bind_Ret _ _ _ _ _ Hrecv).
  - exists (VBytes []), w. simpl. split_and!; auto using quiet_refl.
  - destruct (truthy v) eqn:Hv; simpl.
    + exists v, (set_queues (λ qs, <[q := rest]> qs) w).
      split_and!; auto using quiet_set_queue.
    + exists (VBytes []), (set_queues (λ qs, <[q := rest]> qs) w).
      split_and!; auto using quiet_set_queue.
Qed.

Lemma handle_message_spec (c : Client) (i : Inbound) (w : World) :
  chain_ok (manager c) w →
  ∃ c' w' r, handle_message stt_provider tts_provider c i w = (Ret c', w')
    ∧ socket w' = socket w ++ [Received (message i); Sent r]
    ∧ (r = VBytes [] ∨ truthy r = true)
    ∧ chain_ok (manager c') w'
    ∧ services (manager c') = services (manager c)
    ∧ running c' = true
    ∧ processes (manager c')
      = processes (manager c)
        ++ (if running c then [] else seq (length (procs w)) (length (services (manager c))))
    ∧ length (procs w')
      = length (procs w) + (if running c then 0 else length (services (manager c))).
Proof.
  intros Hok. unfold handle_message.
  set (w0 := set_socket (λ evs, evs ++ [Received (message i)]) w).
  assert (Hok0 : chain_ok (manager c) w0)
    by (by apply (chain_ok_same (manager c) (manager c) w w0)).
  destruct (push_message_spec c (message i) w0 Hok0)
    as (c1 & w1 & Hpush & Hs1 & _ & Hrun1 & Hpr1 & Hlen1 & Ho1 & Hq1 & Hsock1 & _).
  assert (Hok1 : chain_ok (manager c1) w1)
    by (by apply (chain_ok_same (manager c) (manager c1) w0 w1)).
  set (w2 := turns stt_provider tts_provider (busy i) w1).
  destruct (is_quiet_run_workers (busy i) w1) as (Ho2 & Hq2 & Hlen2 & Hsock2).
  simpl in Ho2, Hq2, Hlen2, Hsock2.
  fold (turns stt_provider tts_provider (busy i) w1) in Ho2, Hq2, Hlen2, Hsock2.
  fold w2 in Ho2, Hq2, Hlen2, Hsock2.
  assert (Hok2 : chain_ok (manager c1) w2)
    by (by apply (chain_ok_same (manager c1) (manager c1) w1 w2)).
  destruct (poll_and_respond_spec c1 w2) as (r & w3 & Hpoll & Hr & Ho3 & Hq3 & Hlen3 & Hsock3);
    [apply Hok2|].
  set (w4 := set_socket (λ evs, evs ++ [Sent r]) w3) in *.
  destruct (is_quiet_run_workers (idle i) w4) as (Ho5 & Hq5 & Hlen5 & Hsock5).
  simpl in Ho5, Hq5, Hlen5, Hsock5.
  fold (turns stt_provider tts_provider (idle i) w4) in Ho5, Hq5, Hlen5, Hsock5.
  exists c1, (turns stt_provider tts_provider (idle i) w4), r.
  split_and!; auto.
  - unfold bind at 1. unfold websocket_recv. fold w0.
    rewrite (bind_Ret _ _ _ _ _ Hpush).
    unfold bind at 1. unfold run_workers at 1.
    fold (turns stt_provider tts_provider (busy i) w1). fold w2.
    rewrite (bind_Ret _ _ _ _ _ Hpoll). reflexivity.
  - rewrite Hsock5. simpl. rewrite Hsock3, Hsock2, Hsock1. simpl.
    by rewrite <- app_assoc.
  - eapply chain_ok_same; [reflexivity| | |exact Hok2].
    + rewrite Ho5. simpl. done.
    + rewrite Hq5. simpl. done.
  - rewrite Hlen5. simpl. rewrite Hlen3, Hlen2, Hlen1. done.
Qed.

Lemma exchange_inj (inbound : list Inbound) : ∀ (rs rs' : list PyVal),
  length rs = length inbound →
  length rs' = length inbound →
  exchange inbound rs = exchange inbound rs' → rs = rs'.
Proof.
  induction inbound as [|i rest IH]; intros [|r rs] [|r' rs'] Hl Hl' Heq;
    try done.
  unfold exchange in Heq. simpl in Heq. inversion Heq; subst r'. f_equal.
  apply IH; auto.
Qed.

Lemma serve_spec (inbound : list Inbound) : ∀ (c : Client) (w : World),
  chain_ok (manager c) w →
  ∃ c' w' responses, serve stt_provider tts_provider c inbound w = (Ret c', w')
    ∧ length responses = length inbound
    ∧ socket w' = socket w ++ exchange inbound responses
    ∧ Forall (λ r, r = VBytes [] ∨ truthy r = true) responses
    ∧ services (manager c') = services (manager c)
    ∧ running c' = match inbound with [] => running c | _ => true end
    ∧ processes (manager c')
      = processes (manager c)
        ++ match inbound with
           | [] => []
           | _ => if running c then []
                  else seq (length (procs w)) (length (services (manager c)))
           end
    ∧ length (procs w')
      = length (procs w)
        + match inbound with
          | [] => 0
          | _ => if running c then 0 else length (services (manager c))
          end.
Proof.
  induction inbound as [|i rest IH]; intros c w Hok.
  - exists c, w, []. simpl. unfold ret, exchange. simpl. rewrite !app_nil_r.
    split_and!; auto.
  - destruct (handle_message_spec c i w Hok)
      as (c1 & w1 & r & Hrun & Hsock & Hr & Hok1 & Hs1 & Hrun1 & Hpr1 & Hlen1).
    destruct (IH c1 w1 Hok1)
      as (c' & w' & rs & Hserve & Hlen & Hsock' & Hrs & Hs' & Hrun' & Hpr' & Hlen').
    exists c', w', (r :: rs). simpl. rewrite (bind_Ret _ _ _ _ _ Hrun).
    split_and!; auto.
    + rewrite Hsock', Hsock. unfold exchange. simpl. by rewrite <- !app_assoc.
    + congruence.
    + rewrite Hrun'. by destruct rest.
    + rewrite Hpr', Hpr1, Hrun1. destruct rest; by rewrite app_nil_r.
    + rewrite Hlen', Hlen1, Hrun1. destruct rest; lia.
Qed.

Lemma Manager_init_chain_ok (svcs : list sid) (w : World) :
  svcs ≠ [] →
  NoDup svcs →
  Forall (λ s, s < length (objs w)) svcs →
  ∃ w', Manager_init svcs w = (Ret (mkManager svcs []), w')
    ∧ chain_ok (mkManager svcs []) w'
    ∧ procs w' = procs w ∧ socket w' = socket w
    ∧ (∃ qe qx, entry_channel (mkManager svcs []) w' = Some qe
                ∧ exit_channel (mkManager svcs []) w' = Some qx
                ∧ qe ≠ qx
                ∧ queues w' !! qe = Some [] ∧ queues w' !! qx = Some []).
Proof.
  intros Hne Hnd Hval.
  destruct (Manager_init_spec svcs w Hnd Hval)
    as (w' & Hrun & Hprocs & Hsock & Hq & Hlo & _ & Hel).
  exists w'.
  assert (Hlen : length (queues w') = length (queues w) + S (length svcs)).
  { rewrite Hq, length_app, length_replicate. by destruct svcs. }
  assert (Hpos : 0 < length svcs) by (destruct svcs; [done|simpl; lia]).
  assert (Hnew : ∀ q, length (queues w) ≤ q < length (queues w') → queues w' !! q = Some []).
  { intros q [Hge Hlt]. rewrite Hq, lookup_app_r by done.
    apply lookup_replicate_2. destruct svcs; [done|]. lia. }
  split_and!; auto; [|
    destruct (lookup_lt_is_Some_2 svcs 0 Hpos) as [s0 H0];
    destruct (Hel 0 s0 H0) as (o0 & _ & Ho0);
    assert (Hl : pred (length svcs) < length svcs) by lia;
    destruct (lookup_lt_is_Some_2 svcs _ Hl) as [sl Hsl];
    destruct (Hel _ sl Hsl) as (ol & _ & Hol);
    exists (in_chan (length (queues w)) 0),
      (out_chan (length (queues w)) (pred (length svcs)));
    unfold entry_channel, exit_channel; simpl; rewrite last_lookup, H0, Ho0, Hsl, Hol;
    split_and!; auto;
    [ intros E; by apply (out_chan_not_entry (length (queues w)) (pred (length svcs)))
    | apply Hnew; rewrite Hlen; lia
    | apply Hnew; rewrite Hlen; by apply out_chan_bounds ] ].
  split_and!.
  - simpl. eapply Forall_impl; [exact Hval|]. simpl. intros s Hs. by rewrite Hlo.
  - destruct (lookup_lt_is_Some_2 svcs 0 Hpos) as [s0 H0].
    destruct (Hel 0 s0 H0) as (o0 & _ & Ho0).
    exists (in_chan (length (queues w)) 0). unfold entry_channel. simpl.
    rewrite H0, Ho0. split; [done|]. rewrite Hlen. simpl. lia.
  - assert (Hl : pred (length svcs) < length svcs) by lia.
    destruct (lookup_lt_is_Some_2 svcs _ Hl) as [sl Hsl].
    destruct (Hel _ sl Hsl) as (ol & _ & Hol).
    exists (out_chan (length (queues w)) (pred (length svcs))).
    unfold exit_channel. simpl. rewrite last_lookup, Hsl, Hol. split; [done|].
    rewrite Hlen. eapply out_chan_bounds. exact Hl.
Qed.

(** With no worker taking a turn, a message stays where [send] put it
    and the poll finds nothing. *)
Lemma handle_message_idle (c : Client) (i : Inbound) (w : World) (qe qx : qid)
    (items : list PyVal) :
  busy i = [] → idle i = [] →
  chain_ok (manager c) w →
  entry_channel (manager c) w = Some qe →
  exit_channel (manager c) w = Some qx →
  qe ≠ qx →
  queues w !! qe = Some items →
  queues w !! qx = Some [] →
  ∃ c' w', handle_message stt_provider tts_provider c i w = (Ret c', w')
    ∧ services (manager c') = services (manager c)
    ∧ objs w' = objs w
    ∧ queues w' = <[qe := items ++ [message i]]> (queues w)
    ∧ socket w' = socket w ++ [Received (message i); Sent (VBytes [])].
Proof.
  intros Hbusy Hidle Hok He Hx Hne Hitems Hxs. unfold handle_message.
  set (w0 := set_socket (λ evs, evs ++ [Received (message i)]) w).
  assert (Hok0 : chain_ok (manager c) w0)
    by (by apply (chain_ok_same (manager c) (manager c) w w0)).
  destruct (push_message_spec c (message i) w0 Hok0)
    as (c1 & w1 & Hpush & Hs1 & _ & _ & _ & _ & Ho1 & _ & Hsock1 & Hqs).
  specialize (Hqs qe items He Hitems). simpl in Hqs.
  assert (Hx1 : exit_channel (manager c1) w1 = Some qx).
  { unfold exit_channel in *. by rewrite Hs1, Ho1. }
  assert (Hxs1 : queues w1 !! qx = Some []).
  { rewrite Hqs. by rewrite list_lookup_insert_ne. }
  exists c1, (set_socket (λ evs, evs ++ [Sent (VBytes [])]) w1).
  split_and!; auto.
  - unfold bind at 1. unfold websocket_recv. fold w0.
    rewrite (bind_Ret _ _ _ _ _ Hpush). rewrite Hbusy, Hidle.
    unfold bind at 1. unfold run_workers at 1. simpl.
    unfold poll_and_respond.
    pose proof (Manager_receive_nonblocking (manager c1) w1 qx [] None [] Hx1 Hxs1) as Hrecv.
    unfold bind at 1. unfold bind at 1. rewrite Hrecv. simpl. reflexivity.
  - simpl. rewrite Hsock1. simpl. by rewrite <- app_assoc.
Qed.

Lemma serve_idle (inbound : list Inbound) :
  ∀ (c : Client) (w : World) (qe qx : qid) (items : list PyVal),
    Forall (λ i, busy i = [] ∧ idle i = []) inbound →
    chain_ok (manager c) w →
    entry_channel (manager c) w = Some qe →
    exit_channel (manager c) w = Some qx →
    qe ≠ qx →
    queues w !! qe = Some items →
    queues w !! qx = Some [] →
    ∃ c' w', serve stt_provider tts_provider c inbound w = (Ret c', w')
      ∧ entry_channel (manager c') w' = Some qe
      ∧ queues w' !! qe = Some (items ++ (message <$> inbound))
      ∧ queues w' !! qx = Some []
      ∧ socket w'
        = socket w ++ exchange inbound (replicate (length inbound) (VBytes [])).
Proof.
  induction inbound as [|i rest IH]; intros c w qe qx items Hall Hok He Hx Hne Hitems Hxs.
  - exists c, w. simpl. unfold ret, exchange. simpl. rewrite !app_nil_r. done.
  - apply Forall_cons in Hall as [[Hb Hi] Hall].
    destruct (handle_message_idle c i w qe qx items Hb Hi Hok He Hx Hne Hitems Hxs)
      as (c1 & w1 & Hrun & Hs1 & Ho1 & Hq1 & Hsock1).
    assert (Hlt : qe < length (queues w)) by (by eapply lookup_lt_Some).
    assert (Hok1 : chain_ok (manager c1) w1).
    { apply (chain_ok_same (manager c) (manager c1) w w1); auto.
      rewrite Hq1. apply length_insert. }
    destruct (IH c1 w1 qe qx (items ++ [message i]))
      as (c' & w' & Hserve & He' & Hq' & Hx' & Hsock');
      auto.
    { unfold entry_channel in *. by rewrite Hs1, Ho1. }
    { unfold exit_channel in *. by rewrite Hs1, Ho1. }
    { rewrite Hq1. by apply list_lookup_insert_eq. }
    { rewrite Hq1. by rewrite list_lookup_insert_ne. }
    exists c', w'. simpl. rewrite (bind_Ret _ _ _ _ _ Hrun).
    split_and!; auto.
    + rewrite Hq'. by rewrite <- app_assoc.
    + rewrite Hsock', Hsock1. unfold exchange. simpl. by rewrite <- !app_assoc.
Qed.

Lemma connection_setup (uuid : N) (inbound : list Inbound) (w : World) :
  ∃ w4,
    handle_connections stt_provider tts_provider uuid inbound w
    = serve stt_provider tts_provider
        (mkClient (mkManager [length (objs w); S (S (length (objs w))); S (length (objs w))] [])
           uuid false) inbound w4
    ∧ objs w4 !! length (objs w) = Some (stt_rec (length (queues w)))
    ∧ objs w4 !! S (S (length (objs w))) = Some (ans_rec (length (queues w)))
    ∧ objs w4 !! S (length (objs w)) = Some (tts_rec (length (queues w)))
    ∧ queues w4 = queues w ++ [[]; []; []; []]
    ∧ procs w4 = procs w ∧ socket w4 = socket w.
Proof.
  set (n := length (objs w)). set (L := length (queues w)).
  set (w3 := set_objs (λ os, os ++ [mkService IbmSttService None None;
                                    mkService IbmTtsService None None;
                                    mkService AnswerService None None]) w).
  assert (Hhead : handle_connections stt_provider tts_provider uuid inbound w
            = (let! client := Client_init [n; S (S n); S n] uuid in
               serve stt_provider tts_provider client inbound) w3).
  { unfold handle_connections, ProcessService_init. unfold bind at 1. simpl.
    unfold bind at 1. simpl. unfold bind at 1. simpl.
    rewrite !length_app. simpl. fold n.
    replace (n + 1 + 1) with (S (S n)) by lia. replace (n + 1) with (S n) by lia.
    unfold w3, set_objs. simpl. by rewrite <- !app_assoc. }
  destruct (Manager_init_spec [n; S (S n); S n] w3)
    as (w4 & Hinit & Hprocs & Hsock & Hq & _ & _ & Hel).
  { repeat (apply NoDup_cons; split); try apply NoDup_nil_2;
      rewrite ?elem_of_cons, ?elem_of_nil; lia. }
  { simpl. rewrite length_app. simpl. fold n. repeat constructor; lia. }
  exists w4. rewrite Hhead. unfold Client_init. unfold bind at 1. unfold bind at 1.
  rewrite Hinit. split; [done|].
  destruct (Hel 0 n eq_refl) as (o0 & Ho0 & Ho0').
  destruct (Hel 1 (S (S n)) eq_refl) as (o1 & Ho1 & Ho1').
  destruct (Hel 2 (S n) eq_refl) as (o2 & Ho2 & Ho2').
  simpl in Ho0, Ho1, Ho2.
  rewrite lookup_app_r in Ho0 by (fold n; lia).
  rewrite lookup_app_r in Ho1 by (fold n; lia).
  rewrite lookup_app_r in Ho2 by (fold n; lia).
  fold n in Ho0, Ho1, Ho2.
  replace (n - n) with 0 in Ho0 by lia.
  replace (S (S n) - n) with 2 in Ho1 by lia.
  replace (S n - n) with 1 in Ho2 by lia.
  simpl in Ho0, Ho1, Ho2. inversion Ho0; inversion Ho1; inversion Ho2; subst o0 o1 o2.
  simpl in Ho0', Ho1', Ho2'. fold L in Ho0', Ho1', Ho2'.
  split_and!; auto.
  - rewrite Ho1'. unfold ans_rec. by replace (L + 1 + 1) with (L + 2) by lia.
  - rewrite Ho2'. unfold tts_rec.
    replace (L + 1 + 1) with (L + 2) by lia. by replace (L + 1 + 2) with (L + 3) by lia.
Qed.

Lemma conn_inv_chain (L n : nat) (ps : list pid) (w : World) :
  conn_inv L n w →
  chain_ok (mkManager [n; S (S n); S n] ps) w
  ∧ entry_channel (mkManager [n; S (S n); S n] ps) w = Some (L + 1)
  ∧ exit_channel (mkManager [n; S (S n); S n] ps) w = Some (L + 3).
Proof.
  intros (Ho1 & Ho2 & Ho3 & Hlen).
  assert (He : entry_channel (mkManager [n; S (S n); S n] ps) w = Some (L + 1)).
  { unfold entry_channel. simpl. by rewrite Ho1. }
  assert (Hx : exit_channel (mkManager [n; S (S n); S n] ps) w = Some (L + 3)).
  { unfold exit_channel. simpl. by rewrite Ho3. }
  split_and!; auto. unfold chain_ok, exit_bound. rewrite He, Hx. simpl. split_and!.
  - repeat constructor; by eapply lookup_lt_Some.
  - exists (L + 1). split; [done|lia].
  - exists (L + 3). split; [done|lia].
Qed.

Lemma conn_inv_quiet (L n : nat) (w w' : World) :
  objs w' = objs w → length (queues w') = length (queues w) →
  conn_inv L n w → conn_inv L n w'.
Proof. intros Ho Hq (? & ? & ? & ?). unfold conn_inv. rewrite Ho, Hq. done. Qed.

(** The body of the loop does to the store what [message_model] says. *)
Lemma handle_message_model (L n : nat) (c : Client) (i : Inbound) (w : World) :
  services (manager c) = [n; S (S n); S n] →
  conn_inv L n w →
  ∃ c' w' r, handle_message stt_provider tts_provider c i w = (Ret c', w')
    ∧ services (manager c') = [n; S (S n); S n]
    ∧ running c' = true
    ∧ conn_inv L n w'
    ∧ message_model stt_provider tts_provider (L + 1) (L + 3) (chain_workers L n)
        (running c) w i = (w', r)
    ∧ socket w' = socket w ++ [Received (message i); Sent r].
Proof.
  intros Hs Hinv. destruct c as [[svcs ps] uuid r]. simpl in Hs. subst svcs.
  pose proof Hinv as (Ho1 & Ho2 & Ho3 & Hlen).
  unfold handle_message, message_model. simpl.
  set (w0 := set_socket (λ evs, evs ++ [Received (message i)]) w).
  destruct (lookup_lt_is_Some_2 (queues w) (L + 1)) as [items Hitems]; [lia|].
  assert (Hitems0 : queues w0 !! (L + 1) = Some items) by exact Hitems.
  set (w1 := set_queues (λ qs, <[L + 1 := default [] (qs !! (L + 1)) ++ [message i]]> qs)
               w0).
  assert (Hsend : Manager_send (mkManager [n; S (S n); S n] ps) (message i) w0
                  = (Ret (), w1)).
  { rewrite (Manager_send_ok _ (message i) w0 (L + 1) items); auto.
    - unfold w1, set_queues. by rewrite Hitems0.
    - by apply (conn_inv_chain L n ps w0). }
  set (w2 := if r then w1 else set_procs (λ ps0, ps0 ++ chain_workers L n) w1).
  assert (Hpush : ∃ c1,
            push_message (mkClient (mkManager [n; S (S n); S n] ps) uuid r) (message i) w0
            = (Ret c1, w2)
            ∧ services (manager c1) = [n; S (S n); S n] ∧ running c1 = true).
  { unfold push_message. rewrite (bind_Ret _ _ _ _ _ Hsend). simpl. unfold w2.
    destruct r; simpl.
    - eexists. split; [reflexivity|]. done.
    - unfold Manager_start. simpl.
      unfold Process_start, get_obj, bind, ret. simpl.
      rewrite Ho1. simpl. rewrite Ho2. simpl. rewrite Ho3. simpl.
      eexists. split;
        [unfold set_procs, chain_workers; simpl; by rewrite <- !app_assoc | done]. }
  destruct Hpush as (c1 & Hpush & Hs1 & Hrun1).
  assert (Hinv2 : conn_inv L n w2).
  { apply (conn_inv_quiet L n w); auto.
    - unfold w2. by destruct r.
    - unfold w2. destruct r; simpl; by rewrite length_insert. }
  set (w3 := turns stt_provider tts_provider (busy i) w2).
  destruct (is_quiet_run_workers (busy i) w2)
    as (Ho3' & Hq3' & _ & Hsock3).
  simpl in Ho3', Hq3', Hsock3.
  fold (turns stt_provider tts_provider (busy i) w2) in Ho3', Hq3', Hsock3.
  fold w3 in Ho3', Hq3', Hsock3.
  assert (Hinv3 : conn_inv L n w3) by (by apply (conn_inv_quiet L n w2)).
  assert (Hx : exit_channel (manager c1) w3 = Some (L + 3)).
  { destruct c1 as [[svcs1 ps1] u1 r1]. simpl in Hs1. subst svcs1.
    by apply (conn_inv_chain L n ps1 w3). }
  destruct (lookup_lt_is_Some_2 (queues w3) (L + 3)) as [outs Houts].
  { destruct Hinv3 as (_ & _ & _ & ?). lia. }
  pose proof (Manager_receive_nonblocking (manager c1) w3 (L + 3) outs None [] Hx Houts)
    as Hrecv.
  assert (Hsock2 : socket w2 = socket w ++ [Received (message i)]).
  { unfold w2. by destruct r. }
  set (payload := match outs with
                  | v :: _ => if truthy v then v else VBytes []
                  | [] => VBytes []
                  end).
  set (w4 := match outs with
             | _ :: rest => set_queues (λ qs, <[L + 3 := rest]> qs) w3
             | [] => w3
             end).
  assert (Hpoll : poll_and_respond stt_provider tts_provider c1 w3
                  = (Ret (), set_socket (λ evs, evs ++ [Sent payload]) w4)).
  { unfold poll_and_respond, payload, w4.
    destruct outs as [|v rest]; rewrite (bind_Ret _ _ _ _ _ Hrecv); [done|].
    simpl. by destruct (truthy v). }
  assert (Hinv4 : conn_inv L n (set_socket (λ evs, evs ++ [Sent payload]) w4)).
  { apply (conn_inv_quiet L n w3); auto; unfold w4; destruct outs; simpl; auto.
    by rewrite length_insert. }
  set (w5 := set_socket (λ evs, evs ++ [Sent payload]) w4) in *.
  destruct (is_quiet_run_workers (idle i) w5)
    as (Ho6 & Hq6 & _ & Hsock6).
  simpl in Ho6, Hq6, Hsock6.
  fold (turns stt_provider tts_provider (idle i) w5) in Ho6, Hq6, Hsock6.
  exists c1, (turns stt_provider tts_provider (idle i) w5), payload.
  split_and!; auto.
  - unfold bind at 1. unfold websocket_recv. fold w0.
    rewrite (bind_Ret _ _ _ _ _ Hpush).
    unfold bind at 1. unfold run_workers at 1.
    fold (turns stt_provider tts_provider (busy i) w2). fold w3.
    rewrite (bind_Ret _ _ _ _ _ Hpoll). reflexivity.
  - by apply (conn_inv_quiet L n w5).
  - fold w0. fold w1. fold w2. fold w3. rewrite Houts.
    unfold w5, w4, payload. by destruct outs.
  - rewrite Hsock6. unfold w5. simpl.
    assert (socket w4 = socket w3) as -> by (unfold w4; by destruct outs).
    rewrite Hsock3, Hsock2. by rewrite <- app_assoc.
Qed.

Lemma serve_model (L n : nat) (inbound : list Inbound) : ∀ (c : Client) (w : World),
  services (manager c) = [n; S (S n); S n] →
  conn_inv L n w →
  ∃ c' w' rs, serve stt_provider tts_provider c inbound w = (Ret c', w')
    ∧ frontend_model stt_provider tts_provider (L + 1) (L + 3) (chain_workers L n)
        (running c) w inbound = (w', rs)
    ∧ length rs = length inbound
    ∧ socket w' = socket w ++ exchange inbound rs.
Proof.
  induction inbound as [|i rest IH]; intros c w Hs Hinv.
  - exists c, w, []. simpl. unfold ret, exchange. simpl. by rewrite app_nil_r.
  - destruct (handle_message_model L n c i w Hs Hinv)
      as (c1 & w1 & r & Hrun & Hs1 & Hrun1 & Hinv1 & Hmodel & Hsock1).
    destruct (IH c1 w1 Hs1 Hinv1) as (c' & w' & rs & Hserve & Hmodel' & Hlen & Hsock').
    rewrite Hrun1 in Hmodel'.
    exists c', w', (r :: rs). split_and!.
    + simpl. by rewrite (bind_Ret _ _ _ _ _ Hrun).
    + cbn [frontend_model]. by rewrite Hmodel, Hmodel'.
    + simpl. by rewrite Hlen.
    + rewrite Hsock', Hsock1. unfold exchange. simpl. by rewrite <- !app_assoc.
Qed.

(** C6.  Whatever the store, the messages and the turns the workers take,
    [handle_connections] runs to the end of the messages without raising,
    and the socket shows, after what it showed before, each message
    followed by exactly one response, in the order of the messages; every
    response is either the empty byte string or a real (truthy) unit taken
    from the chain.  The workers are started once, on the first message:
    with no message none is started and the client is not running, with
    one message or more exactly three are, their handles are the client's
    [processes], and the client is running.  When no worker takes a turn,
    the entry channel ends up holding the messages, in order, as [send] put
    them there, and every response is the empty byte string.  In general
    the final store and the responses are those of [frontend_model] run
    from the wired store: each message is put at the end of the entry
    channel, the three workers are added on the first message only, and
    each response is the oldest unit of the exit channel at the moment of
    the poll, which is removed, or the empty byte string when the exit
    channel is empty then or that unit is falsy. *)
Theorem handle_connections_one_response_per_message (uuid : N)
    (inbound : list Inbound) (w : World) :
  ∃ (c' : Client) (w' : World) (responses : list PyVal),
    handle_connections stt_provider tts_provider uuid inbound w = (Ret c', w')
    ∧ length responses = length inbound
    ∧ socket w' = socket w ++ exchange inbound responses
    ∧ Forall (λ r, r = VBytes [] ∨ truthy r = true) responses
    ∧ running c' = match inbound with [] => false | _ => true end
    ∧ processes (manager c')
      = match inbound with [] => [] | _ => seq (length (procs w)) 3 end
    ∧ length (procs w')
      = length (procs w) + match inbound with [] => 0 | _ => 3 end
    ∧ (Forall (λ i, busy i = [] ∧ idle i = []) inbound →
       ∃ q, entry_channel (manager c') w' = Some q
            ∧ queues w' !! q = Some (message <$> inbound)
            ∧ responses = replicate (length inbound) (VBytes []))
    ∧ (∃ w0,
         objs w0 !! length (objs w) = Some (stt_rec (length (queues w)))
         ∧ objs w0 !! S (S (length (objs w))) = Some (ans_rec (length (queues w)))
         ∧ objs w0 !! S (length (objs w)) = Some (tts_rec (length (queues w)))
         ∧ queues w0 = queues w ++ [[]; []; []; []]
         ∧ procs w0 = procs w ∧ socket w0 = socket w
         ∧ frontend_model stt_provider tts_provider
             (length (queues w) + 1) (length (queues w) + 3)
             (chain_workers (length (queues w)) (length (objs w)))
             false w0 inbound
           = (w', responses)).
Proof.
  destruct (connection_setup uuid inbound w)
    as (w4 & Hhead & Ho1 & Ho2 & Ho3 & Hq & Hprocs & Hsock).
  set (n := length (objs w)) in *. set (L := length (queues w)) in *.
  assert (Hinv : conn_inv L n w4).
  { unfold conn_inv. rewrite Hq, length_app. simpl. fold L. split_and!; auto. lia. }
  destruct (conn_inv_chain L n [] w4 Hinv) as (Hok & He & Hx).
  assert (Hnew : ∀ k, k < 4 → queues w4 !! (L + k) = Some []).
  { intros k Hk. rewrite Hq, lookup_app_r by (fold L; lia). fold L.
    replace (L + k - L) with k by lia. by destruct k as [|[|[|[|]]]]; [..|lia]. }
  destruct (serve_spec inbound (mkClient (mkManager [n; S (S n); S n] []) uuid false) w4 Hok)
    as (c' & w' & rs & Hserve & Hlen & Hsock' & Hrs & Hs' & Hrun' & Hpr' & Hlen').
  exists c', w', rs. rewrite Hhead. split_and!; auto.
  - by rewrite Hsock', Hsock.
  - rewrite Hpr', Hprocs. simpl. by destruct inbound.
  - rewrite Hlen', Hprocs. simpl. by destruct inbound.
  - intros Hall.
    destruct (serve_idle inbound (mkClient (mkManager [n; S (S n); S n] []) uuid false)
                w4 (L + 1) (L + 3) [] Hall Hok He Hx ltac:(lia)
                (Hnew 1 ltac:(lia)) (Hnew 3 ltac:(lia)))
      as (c2 & w2 & Hserve2 & He2 & Hq2 & _ & Hsock2).
    rewrite Hserve in Hserve2. inversion Hserve2; subst c2 w2.
    exists (L + 1). split_and!; auto.
    rewrite Hsock' in Hsock2. apply app_inv_head in Hsock2.
    apply (exchange_inj inbound); auto. apply length_replicate.
  - destruct (serve_model L n inbound
                (mkClient (mkManager [n; S (S n); S n] []) uuid false) w4 eq_refl Hinv)
      as (c2 & w2 & rs2 & Hserve2 & Hmodel & Hlen2 & Hsock2).
    rewrite Hserve in Hserve2. inversion Hserve2; subst c2 w2.
    rewrite Hsock' in Hsock2. apply app_inv_head in Hsock2.
    apply (exchange_inj inbound) in Hsock2; auto. subst rs2.
    exists w4. split_and!; auto.
Qed.

End Properties.

(** ** Binding a stage *)

(** C8 (as amended).  The two setters assign whatever they are given, to
    a bound stage too, so nothing prevents a second binding.  What holds is
    that [Manager.__init__], on distinct existing stages, leaves each of
    them with both channels bound, and that the workers a following
    [Manager.start] creates, one per stage, each run a stage whose input
    and output channels are both bound. *)
Theorem stages_bound_when_started (svcs : list sid) (w : World) :
  NoDup svcs →
  Forall (λ s, s < length (objs w)) svcs →
  (∀ s o buffer, objs w !! s = Some o →
     set_input_buffer s buffer w
     = (Ret (), set_objs (λ os, <[s := mkService (cls o) buffer (output_buffer o)]> os) w)
     ∧ set_output_buffer s buffer w
       = (Ret (), set_objs (λ os, <[s := mkService (cls o) (input_buffer o) buffer]> os) w))
  ∧ ∃ (self self' : Manager) (w1 w2 : World) (new : list Process),
      Manager_init svcs w = (Ret self, w1)
      ∧ (∀ s, s ∈ svcs →
           ∃ o qi qo, objs w1 !! s = Some o
                      ∧ input_buffer o = Some qi ∧ output_buffer o = Some qo)
      ∧ Manager_start self w1 = (Ret self', w2)
      ∧ procs w2 = procs w ++ new
      ∧ Forall2 (λ s pr, target pr = s
                         ∧ is_Some (input_buffer (self_copy pr))
                         ∧ is_Some (output_buffer (self_copy pr))) svcs new.
Proof.
  intros Hnd Hval. split.
  - intros s o buffer Ho. unfold set_input_buffer, set_output_buffer. by rewrite Ho.
  - destruct (Manager_init_spec svcs w Hnd Hval)
      as (w1 & Hinit & Hprocs & _ & _ & Hlen & _ & Hel).
    assert (Hval1 : Forall (λ s, s < length (objs w1)) (services (mkManager svcs []))).
    { simpl. eapply Forall_impl; [exact Hval|]. simpl. intros s Hs. by rewrite Hlen. }
    destruct (start_loop_spec svcs (mkManager svcs []) w1 Hval1) as (new & Hnew & Hstart).
    eexists _, _, w1, _, new. split_and!; [exact Hinit| |exact Hstart| |].
    + intros s Hs. apply list_elem_of_lookup in Hs as [i Hi].
      destruct (Hel i s Hi) as (o & _ & Ho). eexists _, _, _. split_and!; eauto.
    + simpl. by rewrite Hprocs.
    + apply mapM_Some, Forall2_same_length_lookup in Hnew as [Hsame Hnew].
      apply Forall2_same_length_lookup. split; [done|].
      intros i s pr Hi Hpr. specialize (Hnew i s pr Hi Hpr).
      destruct (Hel i s Hi) as (o & _ & Ho). unfold worker_of in Hnew.
      rewrite Ho in Hnew. simpl in Hnew. inversion Hnew; subst pr. simpl. eauto.
Qed.

Lemma stages_bound_when_started_witness :
  (∀ s o buffer, objs three_unbound !! s = Some o →
     set_input_buffer s buffer three_unbound
     = (Ret (), set_objs (λ os, <[s := mkService (cls o) buffer (output_buffer o)]> os)
                  three_unbound)
     ∧ set_output_buffer s buffer three_unbound
       = (Ret (), set_objs (λ os, <[s := mkService (cls o) (input_buffer o) buffer]> os)
                    three_unbound))
  ∧ ∃ (self self' : Manager) (w1 w2 : World) (new : list Process),
      Manager_init [0; 1; 2] three_unbound = (Ret self, w1)
      ∧ (∀ s, s ∈ [0; 1; 2] →
           ∃ o qi qo, objs w1 !! s = Some o
                      ∧ input_buffer o = Some qi ∧ output_buffer o = Some qo)
      ∧ Manager_start self w1 = (Ret self', w2)
      ∧ procs w2 = procs three_unbound ++ new
      ∧ Forall2 (λ s pr, target pr = s
                         ∧ is_Some (input_buffer (self_copy pr))
                         ∧ is_Some (output_buffer (self_copy pr))) [0; 1; 2] new.
Proof.
  apply (stages_bound_when_started [0; 1; 2] three_unbound).
  - apply (bool_decide_unpack _). vm_compute. reflexivity.
  - apply (bool_decide_unpack _). vm_compute. reflexivity.
Defined.

(** C8, as stated, fails.  A stage bound by [Manager.__init__] is bound
    again by a later call of a setter, which returns normally and replaces
    the channel, by another queue or by [None]; and [Manager.start] then
    creates a worker for the stage whose input is no longer bound.  A stage
    listed twice is bound twice by [Manager.__init__] itself. *)
Lemma rebinding_is_not_prevented :
  Manager_init [0; 1; 2] three_unbound = (Ret (mkManager [0; 1; 2] []), three_wired)
  ∧ (∃ w2, set_input_buffer 0 (Some 3) three_wired = (Ret (), w2)
           ∧ objs w2 !! 0 = Some (mkService IbmSttService (Some 3) (Some 0)))
  ∧ (∃ w2, set_output_buffer 0 (Some 3) three_wired = (Ret (), w2)
           ∧ objs w2 !! 0 = Some (mkService IbmSttService (Some 1) (Some 3)))
  ∧ (∃ w2 self' w3,
       set_input_buffer 1 None three_wired = (Ret (), w2)
       ∧ Manager_start (mkManager [0; 1; 2] []) w2 = (Ret self', w3)
       ∧ procs w3 !! 1 = Some (mkProcess 1 (mkService AnswerService None (Some 2)) true))
  ∧ (∃ w1, Manager_init [0; 0] three_unbound = (Ret (mkManager [0; 0] []), w1)
           ∧ objs w1 !! 0 = Some (mkService IbmSttService (Some 0) (Some 2))).
Proof.
  split_and!; [reflexivity | | | |]; repeat eexists.
Qed.

(** ** An empty list of candidates *)

(** C2 fails on the code.  [on_transcription] with an empty list of
    candidates raises [IndexError], from [transcript[0]], for every stage
    and every store, and puts nothing on the output channel; a first
    candidate without the key, by contrast, is read as [None] by [get].
    In a started chain whose recognition provider answers a chunk with an
    empty list, the turn of the recognition worker consumes the chunk,
    leaves the output channel empty and ends with the worker dead;
    [receive(False)] in the main process still returns [None]. *)
Theorem on_transcription_empty_candidates :
  (∀ (self : ProcessService) (w : World),
     receive_transcript [] w = (Raise IndexError, w)
     ∧ on_transcription self [] w = (Raise IndexError, w))
  ∧ (∀ (w : World) (rest : list (gmap string PyVal)),
       receive_transcript (∅ :: rest) w = (Ret VNone, w)
       ∧ receive_transcript ({[ "transcript"%string := VStr "hello" ]} :: rest) w
         = (Ret (VStr "hello"), w))
  ∧ (let stt_provider : PyVal → list (list (gmap string PyVal)) := λ _, [[]] in
     let tts_provider : PyVal → list PyVal := λ _, [] in
     let self := mkManager [0; 1; 2] [0; 1; 2] in
     let stt := mkProcess 0 (mkService IbmSttService (Some 1) (Some 0)) in
     let others := [mkProcess 1 (mkService AnswerService (Some 0) (Some 2)) true;
                    mkProcess 2 (mkService IbmTtsService (Some 2) (Some 3)) true] in
     let w := mkWorld (objs three_wired) [[]; [VBytes [Byte.x00]]; []; []]
                (stt true :: others) [] in
     let w' := mkWorld (objs three_wired) [[]; []; []; []] (stt false :: others) [] in
     (∃ w2, Manager_start (mkManager [0; 1; 2] []) three_wired = (Ret self, w2)
            ∧ Manager_send self (VBytes [Byte.x00]) w2 = (Ret (), w))
     ∧ run_worker stt_provider tts_provider 0 w = w'
     ∧ run_worker stt_provider tts_provider 0 w' = w'
     ∧ Manager_receive stt_provider tts_provider self false None [] w' = (Ret VNone, w')).
Proof.
  split_and!.
  - intros self w. split; reflexivity.
  - intros w rest. split; [reflexivity|].
    unfold receive_transcript, ret. by rewrite lookup_singleton_eq.
  - simpl. split_and!; [eexists; split; reflexivity | reflexivity ..].
Qed.

(** ** Instances *)

Lemma passthrough_session_state :
  session_state stt_silent tts_silent passthrough_client passthrough_world.
Proof.
  exists [0], 7%N, one_unbound, passthrough_client, passthrough_world.
  split_and!; [done | by repeat constructor | reflexivity | apply rtc_refl].
Defined.

Lemma receive_nonblocking_in_every_state_witness :
  ∃ (q : qid) (items : list PyVal),
    exit_channel (manager passthrough_client) passthrough_world = Some q
    ∧ queues passthrough_world !! q = Some items
    ∧ Manager_receive stt_silent tts_silent (manager passthrough_client) false None []
        passthrough_world
      = match items with
        | [] => (Ret VNone, passthrough_world)
        | v :: rest => (Ret v, set_queues (λ qs, <[q := rest]> qs) passthrough_world)
        end.
Proof.
  apply (receive_nonblocking_in_every_state stt_silent tts_silent
           passthrough_client passthrough_world None []).
  exact passthrough_session_state.
Defined.

Lemma receive_blocking_waits_or_times_out_witness :
  ∃ q : qid,
    exit_channel (manager passthrough_client) passthrough_world = Some q
    ∧ (∀ t : nat,
         match arrival stt_silent tts_silent q [0] passthrough_world with
         | Some k =>
             if k <=? t then
               ∃ v rest,
                 queues (turns stt_silent tts_silent (take k [0]) passthrough_world) !! q
                 = Some (v :: rest)
                 ∧ Manager_receive stt_silent tts_silent (manager passthrough_client)
                     true (Some t) [0] passthrough_world
                   = (Ret v, set_queues (λ qs, <[q := rest]> qs)
                               (turns stt_silent tts_silent (take k [0]) passthrough_world))
             else
               ∃ w', Manager_receive stt_silent tts_silent (manager passthrough_client)
                       true (Some t) [0] passthrough_world
                     = (Raise QueueEmpty, w')
         | None =>
             ∃ w', Manager_receive stt_silent tts_silent (manager passthrough_client)
                     true (Some t) [0] passthrough_world
                   = (Raise QueueEmpty, w')
         end)
    ∧ match arrival stt_silent tts_silent q [0] passthrough_world with
      | Some k =>
          ∃ v rest,
            queues (turns stt_silent tts_silent (take k [0]) passthrough_world) !! q
            = Some (v :: rest)
            ∧ Manager_receive stt_silent tts_silent (manager passthrough_client)
                true None [0] passthrough_world
              = (Ret v, set_queues (λ qs, <[q := rest]> qs)
                          (turns stt_silent tts_silent (take k [0]) passthrough_world))
      | None =>
          ∃ w', Manager_receive stt_silent tts_silent (manager passthrough_client)
                  true None [0] passthrough_world
                = (Blocked, w')
      end.
Proof.
  apply (receive_blocking_waits_or_times_out stt_silent tts_silent
           passthrough_client passthrough_world [0]).
  exact passthrough_session_state.
Defined.

Lemma passthrough_round_trip_witness :
  ∃ (self self' : Manager) (w1 w2 w3 w4 : World),
    Manager_init [0] one_unbound = (Ret self, w1)
    ∧ Manager_start self w1 = (Ret self', w2)
    ∧ Manager_send self' (VBytes [Byte.x61; Byte.x62; Byte.x63]) w2 = (Ret (), w3)
    ∧ Manager_receive stt_silent tts_silent self' true (Some 1) [0] w3
      = (Ret (VBytes [Byte.x61; Byte.x62; Byte.x63]), w4).
Proof.
  apply (passthrough_round_trip stt_silent tts_silent one_unbound 0
           (mkService AnswerService None None) [Byte.x61; Byte.x62; Byte.x63]
           (Some 1) [0]).
  - reflexivity.
  - reflexivity.
  - constructor.
  - simpl. apply list_elem_of_here.
Defined.

Lemma poll_and_respond_falsy_witness :
  ∃ (data : PyVal) (w' : World),
    Manager_receive stt_silent tts_silent (manager passthrough_client) false None []
      empty_unit_world = (Ret data, w')
    ∧ truthy data = false
    ∧ poll_and_respond stt_silent tts_silent passthrough_client empty_unit_world
      = (Ret (), set_socket (λ evs, evs ++ [Sent (VBytes [])]) w')
    ∧ Forall (λ v, truthy v = false)
        [VNone; VBytes []; VStr EmptyString; VInt 0; VBool false].
Proof.
  apply (poll_and_respond_falsy stt_silent tts_silent passthrough_client
           empty_unit_world 0 [VBytes []]).
  - reflexivity.
  - reflexivity.
  - right. exists (VBytes []), []. split; reflexivity.
Defined.

(** * Further properties *)

(** ** Construction from any list of stages *)

Lemma bound_in_mono (w w' : World) (s : sid) :
  objs w' !! s = objs w !! s →
  length (queues w) ≤ length (queues w') →
  bound_in w s → bound_in w' s.
Proof.
  intros Ho Hq (o & qi & qo & Hs & Hi & Hout & Hli & Hlo).
  exists o, qi, qo. rewrite Ho. split_and!; auto; lia.
Qed.

Lemma init_loop_bound (todo : list sid) : ∀ (k : nat) (self : Manager) (w : World),
  Forall (λ s, s < length (objs w)) todo →
  Forall (bound_in w) (services self) →
  (k = 0 ∨ services self ≠ []) →
  ∃ w', init_loop k todo self w
        = (Ret (mkManager (services self ++ todo) (processes self)), w')
    ∧ Forall (bound_in w') (services self ++ todo)
    ∧ length (objs w') = length (objs w)
    ∧ (∀ s, s ∉ todo → objs w' !! s = objs w !! s)
    ∧ (∃ new, queues w' = queues w ++ new ∧ Forall (λ items, items = []) new)
    ∧ procs w' = procs w ∧ socket w' = socket w.
Proof.
  induction todo as [|s rest IH]; intros k self w Hval Hb Hk.
  - exists w. simpl. unfold ret. rewrite app_nil_r. destruct self. simpl.
    split_and!; auto. exists []. by rewrite app_nil_r.
  - apply Forall_cons in Hval as [Hs Hval].
    destruct (lookup_lt_is_Some_2 (objs w) s Hs) as [o Ho].
    assert (Hgo : ∃ ib qs, init_loop k (s :: rest) self w
                = init_loop (S k) rest (mkManager (services self ++ [s]) (processes self))
                    (mkWorld (<[s := mkService (cls o) (Some ib) (Some (length (queues w)))]>
                                (objs w))
                       (queues w ++ [] :: qs) (procs w) (socket w))
              ∧ ib < length (queues w ++ [] :: qs)
              ∧ Forall (λ items, items = []) qs).
    { destruct k as [|k].
      - exists (S (length (queues w))), [[]].
        split; [by apply init_loop_cons_0|]. rewrite length_app. simpl.
        split; [lia|by repeat constructor].
      - destruct Hk as [|Hne]; [done|].
        destruct (last (services self)) as [sp|] eqn:Hlast;
          [|by apply last_None in Hlast].
        assert (Hsp : bound_in w sp).
        { rewrite Forall_forall in Hb. apply Hb.
          rewrite last_lookup in Hlast. apply list_elem_of_lookup. eauto. }
        destruct Hsp as (op & qi & qo & Hop & _ & Hout & _ & Hlo).
        exists qo, []. rewrite (init_loop_cons_S k s rest self w o sp op Ho Hlast Hop).
        rewrite Hout, length_app. simpl. split_and!; [done|lia|done]. }
    destruct Hgo as (ib & qs & Hstep & Hib & Hqs).
    set (w2 := mkWorld _ _ _ _) in *.
    assert (Hs2 : bound_in w2 s).
    { exists (mkService (cls o) (Some ib) (Some (length (queues w)))), ib, (length (queues w)).
      simpl. split_and!; auto.
      - by apply list_lookup_insert_eq.
      - rewrite length_app. simpl. lia. }
    destruct (IH (S k) (mkManager (services self ++ [s]) (processes self)) w2)
      as (w' & Hrun & Hb' & Hlen & Hframe & (new & Hq & Hnew) & Hprocs & Hsock).
    { simpl. by rewrite length_insert. }
    { simpl. apply Forall_app. split; [|by constructor].
      eapply Forall_impl; [exact Hb|]. intros s' Hs'.
      destruct (decide (s' = s)) as [->|Hne]; [done|].
      eapply bound_in_mono; [| |exact Hs'].
      - simpl. by rewrite list_lookup_insert_ne.
      - simpl. rewrite length_app. lia. }
    { right. simpl. by destruct (services self). }
    exists w'. rewrite Hstep, Hrun. simpl in *. rewrite <- app_assoc in *. simpl in *.
    split_and!; auto.
    + rewrite Hlen. apply length_insert.
    + intros s' Hs'. apply not_elem_of_cons in Hs' as [Hne Hs'].
      rewrite Hframe by done. by rewrite list_lookup_insert_ne.
    + exists (([] :: qs) ++ new). rewrite Hq. split; [done|].
      apply Forall_app. split; [by constructor|done].
Qed.

(** X1.  [Manager.__init__] returns normally on every list of existing
    stages, the empty list and lists naming a stage more than once
    included, and leaves every listed stage with both channels bound to
    queues of the store; the queues that existed keep their place and
    content, the new ones are empty, and stages not listed, processes and
    socket are as before. *)
Theorem Manager_init_binds_every_stage (svcs : list sid) (w : World) :
  Forall (λ s, s < length (objs w)) svcs →
  ∃ w', Manager_init svcs w = (Ret (mkManager svcs []), w')
    ∧ Forall (bound_in w') svcs
    ∧ (∀ s, s ∉ svcs → objs w' !! s = objs w !! s)
    ∧ (∃ new, queues w' = queues w ++ new ∧ Forall (λ items, items = []) new)
    ∧ procs w' = procs w ∧ socket w' = socket w.
Proof.
  intros Hval.
  destruct (init_loop_bound svcs 0 (mkManager [] []) w Hval)
    as (w' & Hrun & Hb & _ & Hframe & Hq & Hprocs & Hsock); [by constructor|by left|].
  exists w'. split_and!; auto.
Qed.

Lemma Manager_init_binds_every_stage_witness :
  ∃ w', Manager_init [0; 0; 1] three_unbound = (Ret (mkManager [0; 0; 1] []), w')
    ∧ Forall (bound_in w') [0; 0; 1]
    ∧ (∀ s, s ∉ [0; 0; 1] → objs w' !! s = objs three_unbound !! s)
    ∧ (∃ new, queues w' = queues three_unbound ++ new ∧ Forall (λ items, items = []) new)
    ∧ procs w' = procs three_unbound ∧ socket w' = socket three_unbound.
Proof.
  apply (Manager_init_binds_every_stage [0; 0; 1] three_unbound).
  apply (bool_decide_unpack _). vm_compute. reflexivity.
Defined.

(** ** The empty chain *)

(** X2.  A manager built from the empty list is built without error and
    holds no stage; [send] and [receive], blocking or not, then raise
    [IndexError] (from [services[0]] and [services[-1]]) and leave the
    store alone, while [start] returns having started nothing. *)
Theorem empty_chain_raises_IndexError
    (stt_provider : PyVal → list (list (gmap string PyVal)))
    (tts_provider : PyVal → list PyVal)
    (w : World) (data : PyVal) (block : bool) (timeout : option nat)
    (sched : list pid) :
  ∃ self, Manager_init [] w = (Ret self, w)
    ∧ services self = [] ∧ processes self = []
    ∧ Manager_send self data w = (Raise IndexError, w)
    ∧ Manager_receive stt_provider tts_provider self block timeout sched w
      = (Raise IndexError, w)
    ∧ Manager_start self w = (Ret self, w).
Proof. exists (mkManager [] []). by split_and!. Qed.

Section MoreProperties.

Variable stt_provider : PyVal → list (list (gmap string PyVal)).
Variable tts_provider : PyVal → list PyVal.

(** ** Sending in every session state *)

Lemma start_loop_same (todo : list sid) : ∀ (self m1 : Manager) (w0 w1 : World),
  start_loop todo self w0 = (Ret m1, w1) →
  services m1 = services self ∧ objs w1 = objs w0 ∧ queues w1 = queues w0.
Proof.
  induction todo as [|s rest IH]; intros self m1 w0 w1 Hrun; simpl in Hrun.
  - by inversion Hrun.
  - unfold bind at 1 in Hrun. unfold Process_start, bind, get_obj in Hrun.
    destruct (objs w0 !! s) as [o|]; [|done].
    apply IH in Hrun as (? & ? & ?). simpl in *. done.
Qed.

Lemma session_step_same (c c' : Client) (w w' : World) :
  session_step stt_provider tts_provider (c, w) (c', w') →
  services (manager c') = services (manager c)
  ∧ objs w' = objs w
  ∧ length (queues w') = length (queues w).
Proof.
  intros Hstep.
  inversion Hstep as [c1 w1 data o w1' Hrun | c1 w1 m' w1' Hrun | c1 w1 b
                     | c1 w1 block timeout sched o w1' Hrun | c1 w1 p | c1 w1 ev];
    subst.
  - pose proof (is_quiet_Manager_send (manager c') data w) as Hq.
    rewrite Hrun in Hq. destruct Hq as (? & ? & _). done.
  - apply start_loop_same in Hrun as (? & ? & ?). simpl. split_and!; congruence.
  - done.
  - pose proof (is_quiet_Manager_receive stt_provider tts_provider
                  (manager c') block timeout sched w) as Hq.
    rewrite Hrun in Hq. destruct Hq as (? & ? & _). done.
  - destruct (quiet_run_worker stt_provider tts_provider p w) as (? & ? & _). done.
  - done.
Qed.

Lemma session_state_chain_ok (c : Client) (w : World) :
  session_state stt_provider tts_provider c w → chain_ok (manager c) w.
Proof.
  intros (svcs & uuid & w0 & c0 & w1 & Hne & Hval & Hinit & Hsteps).
  assert (Hb0 : chain_ok (manager c0) w1).
  { unfold Client_init, bind in Hinit.
    destruct (init_loop_bound svcs 0 (mkManager [] []) w0 Hval)
      as (w' & Hrun & Hb & Hlen & _); [by constructor|by left|].
    unfold Manager_init in Hinit. rewrite Hrun in Hinit. inversion Hinit; subst.
    simpl in *. rewrite Forall_forall in Hb.
    assert (Hin : ∀ i s, svcs !! i = Some s → bound_in w1 s).
    { intros i s Hi. apply Hb. apply list_elem_of_lookup. eauto. }
    unfold chain_ok, exit_bound, entry_channel, exit_channel. simpl. split_and!.
    - eapply Forall_impl; [exact Hval|]. simpl. intros s Hs. by rewrite Hlen.
    - destruct svcs as [|s0 rest]; [done|]. simpl.
      destruct (Hin 0 s0 eq_refl) as (o & qi & qo & -> & -> & _ & Hlt & _). eauto.
    - rewrite last_lookup.
      destruct (svcs !! pred (length svcs)) as [sl|] eqn:Hsl.
      + destruct (Hin _ sl Hsl) as (o & qi & qo & -> & _ & -> & _ & Hlt). eauto.
      + apply lookup_ge_None in Hsl. destruct svcs; [done|simpl in Hsl; lia]. }
  clear Hinit.
  remember (c0, w1) as x eqn:Ex. remember (c, w) as y eqn:Ey.
  revert c0 w1 Ex Hb0. induction Hsteps as [x|x [c2 w2] y Hstep Hrest IH];
    intros c0 w1 Ex Hb0; subst.
  - by inversion Ex; subst.
  - eapply IH; eauto.
    destruct (session_step_same _ _ _ _ Hstep) as (Hs & Ho & Hq).
    by apply (chain_ok_same (manager c0) (manager c2) w1 w2).
Qed.

(** X3.  In every session state [send] returns normally, without waiting,
    and its only effect is to put the data at the end of the entry channel,
    behind what is waiting there. *)
Theorem send_appends_in_every_state (c : Client) (w : World) (data : PyVal) :
  session_state stt_provider tts_provider c w →
  ∃ (q : qid) (items : list PyVal),
    entry_channel (manager c) w = Some q
    ∧ queues w !! q = Some items
    ∧ Manager_send (manager c) data w
      = (Ret (), set_queues (λ qs, <[q := items ++ [data]]> qs) w).
Proof.
  intros Hst. destruct (session_state_chain_ok c w Hst) as (_ & (q & He & Hlt) & _).
  destruct (lookup_lt_is_Some_2 (queues w) q Hlt) as [items Hitems].
  exists q, items. split_and!; auto. by apply Manager_send_ok.
Qed.

(** ** A worker and the channels of others *)

Lemma keeps_others_ret {A} (self : ProcessService) (a : A) : keeps_others self (ret a).
Proof. by intros w q. Qed.

Lemma keeps_others_raise {A} (self : ProcessService) (e : Exn) :
  keeps_others self (@raise A e).
Proof. by intros w q. Qed.

Lemma keeps_others_bind {A B} (self : ProcessService) (m : M A) (k : A → M B) :
  keeps_others self m → (∀ a, keeps_others self (k a)) → keeps_others self (bind m k).
Proof.
  intros Hm Hk w q Hq. unfold bind. specialize (Hm w q Hq).
  destruct (m w) as [[a|e|] w1]; simpl in *; auto.
  by rewrite (Hk a w1 q Hq).
Qed.

Lemma keeps_others_Queue_put (self : ProcessService) (data : PyVal) :
  keeps_others self (Queue_put (output_buffer self) data).
Proof.
  intros w q Hq. unfold Queue_put. destruct (output_buffer self) as [q0|] eqn:E; [|done].
  destruct (queues w !! q0); [|done]. simpl.
  apply list_lookup_insert_ne. intros ->. apply Hq. by right.
Qed.

Lemma keeps_others_Queue_wait (self : ProcessService) :
  keeps_others self (Queue_wait (input_buffer self)).
Proof.
  intros w q Hq. unfold Queue_wait. destruct (input_buffer self) as [q0|] eqn:E; [|done].
  destruct (queues w !! q0) as [[|v items]|]; [done| |done]. simpl.
  apply list_lookup_insert_ne. intros ->. apply Hq. by left.
Qed.

Lemma keeps_others_for_each {A} (self : ProcessService) (xs : list A)
    (body : A → M unit) :
  (∀ x, keeps_others self (body x)) → keeps_others self (for_each xs body).
Proof.
  intros Hb. induction xs as [|x rest IH]; simpl.
  - apply keeps_others_ret.
  - apply keeps_others_bind; auto.
Qed.

Lemma keeps_others_act (self : ProcessService) :
  keeps_others self (act stt_provider tts_provider self).
Proof.
  unfold act. destruct (cls self).
  - apply keeps_others_bind; [apply keeps_others_Queue_wait|]. intros chunk.
    apply keeps_others_for_each. intros t. unfold on_transcription.
    apply keeps_others_bind.
    + unfold receive_transcript.
      destruct t; [apply keeps_others_raise|apply keeps_others_ret].
    + intros v. apply keeps_others_Queue_put.
  - apply keeps_others_bind; [apply keeps_others_Queue_wait|]. intros text.
    apply keeps_others_Queue_put.
  - apply keeps_others_bind; [apply keeps_others_Queue_wait|]. intros text.
    apply keeps_others_for_each. intros a. apply keeps_others_Queue_put.
Qed.

Lemma act_procs (self : ProcessService) (w : World) :
  procs (act stt_provider tts_provider self w).2 = procs w.
Proof.
  assert (Hput : ∀ b v w0, procs (Queue_put b v w0).2 = procs w0).
  { intros [q|] v w0; unfold Queue_put; [|done]. by destruct (queues w0 !! q). }
  assert (Hwait : ∀ b w0, procs (Queue_wait b w0).2 = procs w0).
  { intros [q|] w0; unfold Queue_wait; [|done].
    by destruct (queues w0 !! q) as [[|]|]. }
  assert (Hfor : ∀ {A} (xs : list A) (body : A → M unit),
            (∀ x w0, procs (body x w0).2 = procs w0) →
            ∀ w0, procs (for_each xs body w0).2 = procs w0).
  { intros A xs body Hb. induction xs as [|x rest IH]; intros w0; [done|].
    simpl. unfold bind. specialize (Hb x w0).
    destruct (body x w0) as [[[]|e|] w1]; simpl in *; [|done..].
    by rewrite IH. }
  unfold act. specialize (Hwait (input_buffer self) w). destruct (cls self).
  - unfold IbmSttService_act, bind.
    destruct (Queue_wait _ w) as [[v|e|] w1]; simpl in *; [|done..].
    rewrite Hfor; [done|]. intros t w0. unfold on_transcription, bind, receive_transcript.
    destruct t; simpl; [done|]. apply Hput.
  - unfold AnswerService_act, bind.
    destruct (Queue_wait _ w) as [[v|e|] w1]; simpl in *; [|done..].
    by rewrite Hput.
  - unfold IbmTtsService_act, bind.
    destruct (Queue_wait _ w) as [[v|e|] w1]; simpl in *; [|done..].
    rewrite Hfor; [done|]. intros a w0. apply Hput.
Qed.

(** X4.  A turn of a worker, of whichever class and however it ends,
    changes no queue other than the input and the output channel of its
    stage; it rebinds no object, creates no queue and no process, writes
    nothing on the socket, and leaves every other process as it was. *)
Theorem worker_touches_only_its_channels (p : pid) (pr : Process) (w : World) :
  procs w !! p = Some pr →
  let w' := run_worker stt_provider tts_provider p w in
  (∀ q, ¬ touches (self_copy pr) q → queues w' !! q = queues w !! q)
  ∧ objs w' = objs w
  ∧ length (queues w') = length (queues w)
  ∧ socket w' = socket w
  ∧ length (procs w') = length (procs w)
  ∧ (∀ p', p' ≠ p → procs w' !! p' = procs w !! p')
  ∧ (∃ pr', procs w' !! p = Some pr'
            ∧ target pr' = target pr ∧ self_copy pr' = self_copy pr).
Proof.
  intros Hp. simpl.
  destruct (quiet_run_worker stt_provider tts_provider p w) as (Ho & Hq & Hl & Hs).
  split_and!; auto.
  - intros q Hq'. unfold run_worker. rewrite Hp. destruct (alive pr); [|done].
    pose proof (keeps_others_act (self_copy pr) w q Hq') as Hk.
    destruct (act stt_provider tts_provider (self_copy pr) w) as [[[]|e|] w1]; done.
  - intros p' Hne. unfold run_worker. rewrite Hp. destruct (alive pr); [|done].
    pose proof (act_procs (self_copy pr) w) as Hkeep.
    destruct (act stt_provider tts_provider (self_copy pr) w) as [[[]|e|] w1];
      simpl in *; [by rewrite Hkeep| |done].
    rewrite list_lookup_insert_ne by done. by rewrite Hkeep.
  - unfold run_worker. rewrite Hp. destruct (alive pr); [|by eauto].
    pose proof (act_procs (self_copy pr) w) as Hkeep.
    destruct (act stt_provider tts_provider (self_copy pr) w) as [[[]|e|] w1];
      simpl in *; [rewrite Hkeep; by eauto| |by eauto].
    exists (mkProcess (target pr) (self_copy pr) false). split; [|done].
    apply list_lookup_insert_eq. rewrite Hkeep. by eapply lookup_lt_Some.
Qed.

(** ** The turn of a worker *)

Lemma world_eta (w : World) :
  mkWorld (objs w) (queues w) (procs w) (socket w) = w.
Proof. by destruct w. Qed.

Lemma for_each_put (qo : qid) (xs : list PyVal) : ∀ (outs : list PyVal) (w : World),
  queues w !! qo = Some outs →
  for_each xs (λ x, Queue_put (Some qo) x) w
  = (Ret (), mkWorld (objs w) (<[qo := outs ++ xs]> (queues w)) (procs w) (socket w)).
Proof.
  induction xs as [|x rest IH]; intros outs w Hq; simpl.
  - unfold ret. rewrite app_nil_r, list_insert_id by done. by rewrite world_eta.
  - unfold bind at 1. unfold Queue_put at 1. rewrite Hq.
    rewrite (IH (outs ++ [x])).
    + simpl. by rewrite list_insert_insert_eq, <- app_assoc.
    + simpl. apply list_lookup_insert_eq. by eapply lookup_lt_Some.
Qed.

Lemma for_each_on_transcription (self : ProcessService) (qo : qid)
    (events : list (list (gmap string PyVal))) : ∀ (outs : list PyVal) (w : World),
  output_buffer self = Some qo →
  queues w !! qo = Some outs →
  for_each events (on_transcription self) w
  = (if (heard events).2 then Ret () else Raise IndexError,
     mkWorld (objs w) (<[qo := outs ++ (heard events).1]> (queues w)) (procs w) (socket w)).
Proof.
  induction events as [|t rest IH]; intros outs w Hout Hq; simpl.
  - unfold ret. rewrite app_nil_r, list_insert_id by done. by rewrite world_eta.
  - destruct t as [|best others]; simpl.
    + unfold bind, on_transcription, bind, receive_transcript, raise.
      rewrite app_nil_r, list_insert_id by done. by rewrite world_eta.
    + unfold bind at 1. unfold on_transcription at 1, bind at 1, receive_transcript, ret.
      rewrite Hout. unfold Queue_put at 1. rewrite Hq.
      rewrite (IH (outs ++ [default VNone (best !! "transcript"%string)])); auto.
      * destruct (heard rest) as [vs ok]. simpl.
        by rewrite list_insert_insert_eq, <- app_assoc.
      * simpl. apply list_lookup_insert_eq. by eapply lookup_lt_Some.
Qed.

(** A worker that is dead, or whose input channel is empty, does nothing. *)
Lemma run_worker_idle (p : pid) (pr : Process) (w : World) :
  procs w !! p = Some pr →
  (alive pr = false
   ∨ ∃ qi, input_buffer (self_copy pr) = Some qi ∧ queues w !! qi = Some []) →
  run_worker stt_provider tts_provider p w = w.
Proof.
  intros Hp H. unfold run_worker. rewrite Hp.
  destruct H as [->|(qi & Hin & Hq)]; [done|].
  destruct (alive pr); [|done].
  unfold act, IbmSttService_act, AnswerService_act, IbmTtsService_act.
  destruct (cls (self_copy pr)); unfold bind at 1, Queue_wait; by rewrite Hin, Hq.
Qed.

(** What a turn does when there is a unit to read. *)
Lemma run_worker_emits (p : pid) (s : sid) (self : ProcessService) (w : World)
    (qi qo : qid) (v : PyVal) (rest outs : list PyVal) :
  procs w !! p = Some (mkProcess s self true) →
  input_buffer self = Some qi →
  output_buffer self = Some qo →
  qi ≠ qo →
  queues w !! qi = Some (v :: rest) →
  queues w !! qo = Some outs →
  run_worker stt_provider tts_provider p w
  = mkWorld (objs w)
      (<[qo := outs ++ (emitted stt_provider tts_provider (cls self) v).1]>
         (<[qi := rest]> (queues w)))
      (<[p := mkProcess s self (emitted stt_provider tts_provider (cls self) v).2]>
         (procs w))
      (socket w).
Proof.
  intros Hp Hin Hout Hne Hqi Hqo.
  assert (Hqo1 : queues (set_queues (λ qs, <[qi := rest]> qs) w) !! qo = Some outs).
  { simpl. by rewrite list_lookup_insert_ne. }
  unfold run_worker. rewrite Hp. simpl. unfold act, emitted.
  destruct (cls self).
  - unfold IbmSttService_act, bind at 1, Queue_wait. rewrite Hin, Hqi.
    rewrite (for_each_on_transcription self qo _ outs _ Hout Hqo1).
    destruct (heard (stt_provider v)) as [vs [|]]; simpl; [|done].
    by rewrite (list_insert_id _ _ _ Hp).
  - unfold AnswerService_act, bind at 1, Queue_wait. rewrite Hin, Hqi, Hout.
    unfold Queue_put. rewrite Hqo1. simpl. by rewrite (list_insert_id _ _ _ Hp).
  - unfold IbmTtsService_act, bind at 1, Queue_wait. rewrite Hin, Hqi.
    unfold on_audio_stream. rewrite Hout.
    change (λ audio_data : PyVal, Queue_put (Some qo) audio_data)
      with (λ x : PyVal, Queue_put (Some qo) x).
    rewrite (for_each_put qo _ outs _ Hqo1). simpl.
    by rewrite (list_insert_id _ _ _ Hp).
Qed.

Lemma passthrough_turns (p : pid) (s : sid) (self : ProcessService)
    (qi qo : qid) (k : nat) : ∀ (w : World) (ins outs : list PyVal),
  procs w !! p = Some (mkProcess s self true) →
  cls self = AnswerService →
  input_buffer self = Some qi →
  output_buffer self = Some qo →
  qi ≠ qo →
  queues w !! qi = Some ins →
  queues w !! qo = Some outs →
  turns stt_provider tts_provider (replicate k p) w
  = mkWorld (objs w) (<[qo := outs ++ take k ins]> (<[qi := drop k ins]> (queues w)))
      (procs w) (socket w).
Proof.
  induction k as [|k IH]; intros w ins outs Hp Hcls Hin Hout Hne Hqi Hqo.
  - simpl. rewrite drop_0, app_nil_r.
    rewrite (list_insert_id _ _ _ Hqi), (list_insert_id _ _ _ Hqo). by rewrite world_eta.
  - change (turns stt_provider tts_provider (replicate (S k) p) w)
      with (turns stt_provider tts_provider (replicate k p)
              (run_worker stt_provider tts_provider p w)).
    destruct ins as [|v rest].
    + rewrite (run_worker_idle p _ w Hp) by (right; eauto).
      rewrite (IH w [] outs) by done. by rewrite drop_nil, take_nil.
    + rewrite (run_worker_emits p s self w qi qo v rest outs) by done.
      rewrite Hcls. simpl. rewrite (list_insert_id _ _ _ Hp).
      rewrite (IH _ rest (outs ++ [v])); simpl; auto.
      * rewrite (list_insert_insert_ne _ qi qo (drop k rest)) by done.
        rewrite !list_insert_insert_eq. by rewrite <- app_assoc.
      * rewrite list_lookup_insert_ne by done.
        apply list_lookup_insert_eq. by eapply lookup_lt_Some.
      * apply list_lookup_insert_eq. rewrite length_insert. by eapply lookup_lt_Some.
Qed.

(** X5.  The turn of a worker of a bound stage.  A worker that is dead,
    or whose input channel is empty, changes nothing.  Otherwise the oldest
    unit is removed from the input channel, and what the stage makes of it
    is put, in order, at the end of the output channel: the unit itself for
    [AnswerService], the pieces of audio of the synthesis provider for
    [IbmTtsService], and for [IbmSttService] the first transcript of each
    event of the recognition provider up to the first event without
    candidates, at which the worker dies; the unit it read is gone in
    either case.  Nothing else changes. *)
Theorem worker_turn (p : pid) (s : sid) (self : ProcessService) (live : bool)
    (w : World) (qi qo : qid) (ins outs : list PyVal) :
  procs w !! p = Some (mkProcess s self live) →
  input_buffer self = Some qi →
  output_buffer self = Some qo →
  qi ≠ qo →
  queues w !! qi = Some ins →
  queues w !! qo = Some outs →
  run_worker stt_provider tts_provider p w
  = match live, ins with
    | true, v :: rest =>
        mkWorld (objs w)
          (<[qo := outs ++ (emitted stt_provider tts_provider (cls self) v).1]>
             (<[qi := rest]> (queues w)))
          (<[p := mkProcess s self (emitted stt_provider tts_provider (cls self) v).2]>
             (procs w))
          (socket w)
    | _, _ => w
    end.
Proof.
  intros Hp Hin Hout Hne Hqi Hqo. destruct live, ins as [|v rest].
  - apply (run_worker_idle p _ w Hp). right. eauto.
  - by apply run_worker_emits.
  - apply (run_worker_idle p _ w Hp). by left.
  - apply (run_worker_idle p _ w Hp). by left.
Qed.

(** X6.  A passthrough worker given [k] turns in a row moves the [k]
    oldest units of its input channel, in their order, to the end of its
    output channel (all of them when there are fewer), and changes nothing
    else: no unit is lost, repeated or reordered. *)
Theorem passthrough_moves_oldest_first (p : pid) (s : sid) (self : ProcessService)
    (qi qo : qid) (k : nat) (w : World) (ins outs : list PyVal) :
  procs w !! p = Some (mkProcess s self true) →
  cls self = AnswerService →
  input_buffer self = Some qi →
  output_buffer self = Some qo →
  qi ≠ qo →
  queues w !! qi = Some ins →
  queues w !! qo = Some outs →
  let w' := turns stt_provider tts_provider (replicate k p) w in
  queues w' !! qi = Some (drop k ins)
  ∧ queues w' !! qo = Some (outs ++ take k ins)
  ∧ (∀ q, q ≠ qi → q ≠ qo → queues w' !! q = queues w !! q)
  ∧ objs w' = objs w ∧ procs w' = procs w ∧ socket w' = socket w.
Proof.
  intros Hp Hcls Hin Hout Hne Hqi Hqo. simpl.
  rewrite (passthrough_turns p s self qi qo k w ins outs) by done. simpl.
  assert (qi < length (queues w)) by (by eapply lookup_lt_Some).
  assert (qo < length (queues w)) by (by eapply lookup_lt_Some).
  split_and!; auto.
  - rewrite list_lookup_insert_ne by done. by apply list_lookup_insert_eq.
  - apply list_lookup_insert_eq. by rewrite length_insert.
  - intros q Hq1 Hq2. by rewrite !list_lookup_insert_ne by done.
Qed.

(** ** Order of the units *)

Lemma send_all (self : Manager) (q : qid) (xs : list PyVal) :
  ∀ (items : list PyVal) (w : World),
    entry_channel self w = Some q →
    queues w !! q = Some items →
    for_each xs (Manager_send self) w
    = (Ret (), mkWorld (objs w) (<[q := items ++ xs]> (queues w)) (procs w) (socket w)).
Proof.
  induction xs as [|x rest IH]; intros items w He Hq; simpl.
  - unfold ret. rewrite app_nil_r, list_insert_id by done. by rewrite world_eta.
  - rewrite (bind_Ret _ _ _ _ _ (Manager_send_ok self x w q items He Hq)).
    rewrite (IH (items ++ [x])); auto.
    + simpl. by rewrite list_insert_insert_eq, <- app_assoc.
    + simpl. apply list_lookup_insert_eq. by eapply lookup_lt_Some.
Qed.

Lemma receive_n_spec (self : Manager) (q : qid) (n : nat) :
  ∀ (items : list PyVal) (w : World),
    exit_channel self w = Some q →
    queues w !! q = Some items →
    receive_n stt_provider tts_provider n self w
    = (Ret (take n items ++ replicate (n - length items) VNone),
       mkWorld (objs w) (<[q := drop n items]> (queues w)) (procs w) (socket w)).
Proof.
  induction n as [|n IH]; intros items w Hx Hq; simpl.
  - unfold ret. rewrite drop_0, list_insert_id by done. by rewrite world_eta.
  - pose proof (Manager_receive_nonblocking stt_provider tts_provider
                  self w q items None [] Hx Hq) as Hrecv.
    destruct items as [|v rest]; rewrite (bind_Ret _ _ _ _ _ Hrecv).
    + rewrite (bind_Ret _ _ _ _ _ (IH [] w Hx Hq)). unfold ret.
      rewrite take_nil, drop_nil. simpl. by rewrite Nat.sub_0_r.
    + assert (Hq' : queues (set_queues (λ qs, <[q := rest]> qs) w) !! q = Some rest).
      { simpl. apply list_lookup_insert_eq. by eapply lookup_lt_Some. }
      rewrite (bind_Ret _ _ _ _ _
                 (IH rest (set_queues (λ qs, <[q := rest]> qs) w) Hx Hq')).
      unfold ret. simpl.
      by rewrite list_insert_insert_eq.
Qed.

(** X7.  In every session state, [n] calls of [receive(False)] in a row
    return the units waiting on the exit channel oldest first, each of them
    once, and [None] from then on; the units returned are removed and
    nothing else changes. *)
Theorem receive_returns_oldest_first (c : Client) (w : World) (n : nat) :
  session_state stt_provider tts_provider c w →
  ∃ (q : qid) (items : list PyVal),
    exit_channel (manager c) w = Some q
    ∧ queues w !! q = Some items
    ∧ receive_n stt_provider tts_provider n (manager c) w
      = (Ret (take n items ++ replicate (n - length items) VNone),
         mkWorld (objs w) (<[q := drop n items]> (queues w)) (procs w) (socket w)).
Proof.
  intros Hst.
  destruct (session_state_exit_bound stt_provider tts_provider c w Hst) as (q & Hx & Hlt).
  destruct (lookup_lt_is_Some_2 (queues w) q Hlt) as [items Hitems].
  exists q, items. split_and!; auto. by apply receive_n_spec.
Qed.

(** X8.  Through a started chain of one [AnswerService], units come out
    in the order they went in: after [send] of each unit of [xs], and as
    many turns of the worker, [receive(False)] returns the units of [xs]
    one by one, in order, and then [None]. *)
Theorem passthrough_chain_is_fifo (w : World) (s : sid) (o : ProcessService)
    (xs : list PyVal) :
  objs w !! s = Some o →
  cls o = AnswerService →
  ∃ (self self' : Manager) (w1 w2 w' : World),
    Manager_init [s] w = (Ret self, w1)
    ∧ Manager_start self w1 = (Ret self', w2)
    ∧ (let! _ := for_each xs (Manager_send self') in
       let! _ := run_workers stt_provider tts_provider
                   (replicate (length xs) (length (procs w))) in
       receive_n stt_provider tts_provider (S (length xs)) self') w2
      = (Ret (xs ++ [VNone]), w').
Proof.
  intros Ho Hcls.
  set (L := length (queues w)).
  set (o1 := mkService AnswerService (Some (S L)) (Some L)).
  set (w1 := mkWorld (<[s := o1]> (objs w)) (queues w ++ [[]; []]) (procs w) (socket w)).
  set (w2 := set_procs (λ ps, ps ++ [mkProcess s o1 true]) w1).
  set (self' := mkManager [s] [length (procs w)]).
  assert (Hs : s < length (objs w)) by (by eapply lookup_lt_Some).
  assert (Hs1 : objs w1 !! s = Some o1) by (by apply list_lookup_insert_eq).
  assert (HL : (queues w ++ [[]; []]) !! L = Some []).
  { rewrite lookup_app_r by done. fold L. by rewrite Nat.sub_diag. }
  assert (HSL : (queues w ++ [[]; []]) !! S L = Some []).
  { rewrite lookup_app_r by (fold L; lia). fold L.
    by replace (S L - L) with 1 by lia. }
  assert (Hinit : Manager_init [s] w = (Ret (mkManager [s] []), w1)).
  { unfold Manager_init. rewrite (init_loop_cons_0 s [] _ w o Ho). simpl.
    unfold ret, w1, o1. by rewrite Hcls. }
  assert (Hstart : Manager_start (mkManager [s] []) w1 = (Ret self', w2)).
  { unfold Manager_start. simpl. unfold bind at 1. unfold Process_start, bind, get_obj.
    by rewrite Hs1. }
  assert (He : entry_channel self' w2 = Some (S L)).
  { unfold entry_channel. simpl. by rewrite list_lookup_insert_eq by done. }
  assert (Hx : exit_channel self' w2 = Some L).
  { unfold exit_channel. simpl. by rewrite list_lookup_insert_eq by done. }
  pose proof (send_all self' (S L) xs [] w2 He HSL) as Hsend. simpl in Hsend.
  set (w3 := mkWorld _ _ _ _) in Hsend.
  assert (Hlen : L < length (queues w ++ [[]; []])) by (by eapply lookup_lt_Some).
  assert (Hlen' : S L < length (queues w ++ [[]; []])) by (by eapply lookup_lt_Some).
  assert (Hturns : turns stt_provider tts_provider
                     (replicate (length xs) (length (procs w))) w3
                   = mkWorld (objs w3)
                       (<[L := [] ++ take (length xs) xs]>
                          (<[S L := drop (length xs) xs]> (queues w3)))
                       (procs w3) (socket w3)).
  { apply (passthrough_turns (length (procs w)) s o1 (S L) L); auto.
    - simpl. rewrite lookup_app_r by done. by rewrite Nat.sub_diag.
    - simpl. by apply list_lookup_insert_eq.
    - simpl. by rewrite list_lookup_insert_ne by lia. }
  set (w4 := mkWorld _ _ _ _) in Hturns.
  assert (Hx4 : exit_channel self' w4 = Some L) by exact Hx.
  assert (Hq4 : queues w4 !! L = Some xs).
  { simpl. rewrite firstn_all. apply list_lookup_insert_eq.
    by rewrite !length_insert. }
  exists (mkManager [s] []), self', w1, w2. eexists. split_and!; auto.
  rewrite (bind_Ret _ _ _ _ _ Hsend).
  unfold bind at 1. unfold run_workers at 1.
  fold (turns stt_provider tts_provider (replicate (length xs) (length (procs w))) w3).
  rewrite Hturns.
  rewrite (receive_n_spec self' L (S (length xs)) xs w4 Hx4 Hq4).
  rewrite take_ge by lia. replace (S (length xs) - length xs) with 1 by lia.
  reflexivity.
Qed.

(** ** Two chains in one store *)

(** X9.  Two managers built one after the other from lists of distinct
    stages with no stage in common share no channel: every channel of a
    stage of the first differs from every channel of a stage of the second,
    and building the second leaves the stages of the first as they were. *)
Theorem chains_share_no_channel (svcsA svcsB : list sid) (w : World) :
  NoDup svcsA →
  NoDup svcsB →
  (∀ s, s ∈ svcsA → s ∉ svcsB) →
  Forall (λ s, s < length (objs w)) (svcsA ++ svcsB) →
  ∃ (wA wB : World),
    Manager_init svcsA w = (Ret (mkManager svcsA []), wA)
    ∧ Manager_init svcsB wA = (Ret (mkManager svcsB []), wB)
    ∧ (∀ sa, sa ∈ svcsA → objs wB !! sa = objs wA !! sa)
    ∧ (∀ sa sb oa ob qa qb,
         sa ∈ svcsA → sb ∈ svcsB →
         objs wB !! sa = Some oa → objs wB !! sb = Some ob →
         touches oa qa → touches ob qb → qa ≠ qb).
Proof.
  intros HndA HndB Hdisj Hval. apply Forall_app in Hval as [HvalA HvalB].
  destruct (Manager_init_spec svcsA w HndA HvalA)
    as (wA & HrunA & _ & _ & HqA & HlenA & _ & HelA).
  assert (HvalB' : Forall (λ s, s < length (objs wA)) svcsB).
  { eapply Forall_impl; [exact HvalB|]. simpl. intros s Hs. by rewrite HlenA. }
  destruct (Manager_init_spec svcsB wA HndB HvalB')
    as (wB & HrunB & _ & _ & HqB & HlenB & HframeB & HelB).
  exists wA, wB. split_and!; auto.
  intros sa sb oa ob qa qb Hsa Hsb Hoa Hob Hta Htb.
  rewrite (HframeB sa (Hdisj sa Hsa)) in Hoa.
  apply list_elem_of_lookup in Hsa as [i Hi]. apply list_elem_of_lookup in Hsb as [j Hj].
  destruct (HelA i sa Hi) as (oa0 & _ & Hoa'). rewrite Hoa' in Hoa. inversion Hoa; subst oa.
  destruct (HelB j sb Hj) as (ob0 & _ & Hob'). rewrite Hob' in Hob. inversion Hob; subst ob.
  assert (Hi' : i < length svcsA) by (by eapply lookup_lt_Some).
  assert (Hj' : j < length svcsB) by (by eapply lookup_lt_Some).
  assert (HLA : length (queues wA) = length (queues w) + S (length svcsA)).
  { rewrite HqA, length_app, length_replicate. destruct svcsA; [simpl in Hi'; lia|done]. }
  pose proof (in_chan_bounds (length (queues w)) _ _ Hi') as Hia.
  pose proof (out_chan_bounds (length (queues w)) _ _ Hi') as Hoa2.
  pose proof (in_chan_bounds (length (queues wA)) _ _ Hj') as Hib.
  pose proof (out_chan_bounds (length (queues wA)) _ _ Hj') as Hob2.
  destruct Hta as [Hta|Hta], Htb as [Htb|Htb]; simpl in Hta, Htb;
    inversion Hta; inversion Htb; lia.
Qed.

(** ** A chain that was never started *)

Lemma Manager_init_wf_exit (svcs : list sid) (w : World) :
  svcs ≠ [] →
  NoDup svcs →
  Forall (λ s, s < length (objs w)) svcs →
  ∀ w1 qx, Manager_init svcs w = (Ret (mkManager svcs []), w1) →
           exit_channel (mkManager svcs []) w1 = Some qx →
           length (queues w) ≤ qx.
Proof.
  intros Hne Hnd Hval w1 qx Hinit Hx.
  destruct (Manager_init_spec svcs w Hnd Hval) as (w1' & Hrun & _ & _ & _ & _ & _ & Hel).
  rewrite Hinit in Hrun. inversion Hrun; subst w1'.
  unfold exit_channel in Hx. simpl in Hx. rewrite last_lookup in Hx.
  destruct (svcs !! pred (length svcs)) as [sl|] eqn:Hsl; [|done].
  destruct (Hel _ sl Hsl) as (o & _ & Ho). rewrite Ho in Hx. simpl in Hx.
  inversion Hx. assert (pred (length svcs) < length svcs) by (by eapply lookup_lt_Some).
  eapply out_chan_bounds; eauto.
Qed.

Lemma arrival_never (L q : qid) (sched : list pid) : ∀ (w : World),
  L ≤ q →
  queues w !! q = Some [] →
  (∀ p pr, procs w !! p = Some pr → refs_below L (self_copy pr)) →
  arrival stt_provider tts_provider q sched w = None.
Proof.
  induction sched as [|p rest IH]; intros w Hle Hq Hprocs; simpl; rewrite Hq; [done|].
  rewrite IH; auto.
  - destruct (procs w !! p) as [pr|] eqn:Hp.
    + destruct (run_worker_other stt_provider tts_provider L p pr w Hp (Hprocs p pr Hp))
        as (Hqs & _). by rewrite Hqs.
    + unfold run_worker. by rewrite Hp.
  - intros p' pr' Hp'. destruct (procs w !! p) as [pr|] eqn:Hp.
    + destruct (run_worker_other stt_provider tts_provider L p pr w Hp (Hprocs p pr Hp))
        as (_ & Hothers & pr2 & Hpr2 & Hcopy).
      destruct (decide (p' = p)) as [->|Hne].
      * rewrite Hpr2 in Hp'. inversion Hp'; subst pr'. rewrite Hcopy. by eapply Hprocs.
      * rewrite Hothers in Hp' by done. by eapply Hprocs.
    + unfold run_worker in Hp'. rewrite Hp in Hp'. by eapply Hprocs.
Qed.

(** X10.  On a chain that was built but not started, [receive] with
    [block] true never returns a unit, whatever was sent and whatever the
    workers of other chains do meanwhile: with a timeout it raises
    [queue.Empty], without one it never returns. *)
Theorem unstarted_chain_never_delivers (svcs : list sid) (w : World) (data : PyVal)
    (timeout : option nat) (sched : list pid) :
  svcs ≠ [] →
  NoDup svcs →
  Forall (λ s, s < length (objs w)) svcs →
  Forall (λ pr, refs_below (length (queues w)) (self_copy pr)) (procs w) →
  ∃ (self : Manager) (w1 w2 w' : World),
    Manager_init svcs w = (Ret self, w1)
    ∧ Manager_send self data w1 = (Ret (), w2)
    ∧ Manager_receive stt_provider tts_provider self true timeout sched w2
      = (match timeout with Some _ => Raise QueueEmpty | None => Blocked end, w').
Proof.
  intros Hne Hnd Hval Hprocs.
  destruct (Manager_init_chain_ok svcs w Hne Hnd Hval)
    as (w1 & Hinit & Hok & Hp1 & _ & qe & qx & He & Hx & Hneq & Hqe & Hqx).
  pose proof (Manager_init_wf_exit svcs w Hne Hnd Hval w1 qx Hinit Hx) as Hge.
  set (w2 := set_queues (λ qs, <[qe := [] ++ [data]]> qs) w1).
  assert (Hsend : Manager_send (mkManager svcs []) data w1 = (Ret (), w2))
    by (by apply Manager_send_ok).
  assert (Hx2 : exit_channel (mkManager svcs []) w2 = Some qx) by exact Hx.
  assert (Hqx2 : queues w2 !! qx = Some []).
  { simpl. by rewrite list_lookup_insert_ne. }
  assert (Hnone : arrival stt_provider tts_provider qx sched w2 = None).
  { apply (arrival_never (length (queues w))); auto.
    intros p pr Hp. simpl in Hp. rewrite Hp1 in Hp.
    rewrite Forall_forall in Hprocs. apply Hprocs. apply list_elem_of_lookup. eauto. }
  pose proof (Queue_get_wait_spec stt_provider tts_provider qx sched timeout w2) as Hspec.
  rewrite Hnone in Hspec. destruct Hspec as [w' Hw']; [by eapply lookup_lt_Some|].
  exists (mkManager svcs []), w1, w2, w'. split_and!; auto.
  by rewrite (Manager_receive_blocking _ _ _ _ qx).
Qed.

(** ** The chain of a connection *)

Lemma Process_start_ok (s : sid) (o : ProcessService) (w : World) :
  objs w !! s = Some o →
  Process_start s w
  = (Ret (length (procs w)), set_procs (λ ps, ps ++ [mkProcess s o true]) w).
Proof. intros Ho. unfold Process_start, bind, get_obj. by rewrite Ho. Qed.

Lemma run_worker_copies (Q : ProcessService → Prop) (p : pid) (w : World) :
  Forall (λ pr, Q (self_copy pr)) (procs w) →
  Forall (λ pr, Q (self_copy pr)) (procs (run_worker stt_provider tts_provider p w)).
Proof.
  intros HQ. unfold run_worker. destruct (procs w !! p) as [pr|] eqn:Hp; [|done].
  destruct (alive pr); [|done].
  pose proof (act_procs (self_copy pr) w) as Hkeep.
  destruct (act stt_provider tts_provider (self_copy pr) w) as [[[]|e|] w1];
    simpl in *; [by rewrite Hkeep| |done].
  rewrite Hkeep. apply Forall_insert; [done|]. simpl.
  by apply (Forall_lookup_1 _ _ _ _ HQ Hp).
Qed.

(** ** A recognition stage that never emits *)

Section Silent.

Hypothesis never_heard : ∀ chunk, (heard (stt_provider chunk)).1 = [].

Lemma silent_turn (L n : nat) (p : pid) (w : World) :
  silent_world L n w → silent_world L n (run_worker stt_provider tts_provider p w).
Proof.
  intros (Ho1 & Ho2 & Ho3 & Hlen & Hprocs & Hq0 & Hq2 & Hq3).
  destruct (quiet_run_worker stt_provider tts_provider p w) as (Hobj & Hqlen & _ & _).
  pose proof (run_worker_copies (chain_copy L) p w Hprocs) as Hcopies.
  assert (Hqs : queues (run_worker stt_provider tts_provider p w) !! L = Some []
                ∧ queues (run_worker stt_provider tts_provider p w) !! (L + 2) = Some []
                ∧ queues (run_worker stt_provider tts_provider p w) !! (L + 3) = Some []).
  { destruct (procs w !! p) as [pr|] eqn:Hp;
      [|unfold run_worker; by rewrite Hp].
    destruct (Forall_lookup_1 _ _ _ _ Hprocs Hp) as [Hbelow|[Hc|[Hc|Hc]]].
    - destruct (run_worker_other stt_provider tts_provider L p pr w Hp Hbelow) as (Hsame & _).
      rewrite !Hsame by lia. done.
    - destruct pr as [s self [|]]; simpl in Hc; subst self;
        [|by rewrite (run_worker_idle p _ w Hp) by (by left)].
      destruct (lookup_lt_is_Some_2 (queues w) (L + 1)) as [[|v rest] Hitems]; [lia| |].
      + by rewrite (run_worker_idle p _ w Hp) by (right; eauto).
      + rewrite (run_worker_emits p s (stt_rec L) w (L + 1) L v rest [] Hp eq_refl eq_refl)
          by (done || lia).
        simpl. rewrite never_heard. simpl.
        split_and!.
        * apply list_lookup_insert_eq. rewrite length_insert. lia.
        * by rewrite !list_lookup_insert_ne by lia.
        * by rewrite !list_lookup_insert_ne by lia.
    - by rewrite (run_worker_idle p _ w Hp) by (right; exists L; by rewrite Hc).
    - by rewrite (run_worker_idle p _ w Hp) by (right; exists (L + 2); by rewrite Hc). }
  destruct Hqs as (? & ? & ?).
  unfold silent_world. rewrite Hobj, Hqlen. split_and!; auto.
Qed.

Lemma silent_turns (L n : nat) (sched : list pid) : ∀ (w : World),
  silent_world L n w → silent_world L n (turns stt_provider tts_provider sched w).
Proof.
  induction sched as [|p rest IH]; intros w Hw; [done|].
  simpl. apply IH. by apply silent_turn.
Qed.

Lemma handle_message_silent (L n : nat) (c : Client) (i : Inbound) (w : World) :
  services (manager c) = [n; S (S n); S n] →
  silent_world L n w →
  ∃ c' w', handle_message stt_provider tts_provider c i w = (Ret c', w')
    ∧ services (manager c') = [n; S (S n); S n]
    ∧ silent_world L n w'
    ∧ socket w' = socket w ++ [Received (message i); Sent (VBytes [])].
Proof.
  intros Hs (Ho1 & Ho2 & Ho3 & Hlen & Hprocs & Hq0 & Hq2 & Hq3).
  destruct c as [[svcs ps] uuid r]. simpl in Hs. subst svcs.
  unfold handle_message.
  set (w0 := set_socket (λ evs, evs ++ [Received (message i)]) w).
  destruct (lookup_lt_is_Some_2 (queues w) (L + 1)) as [items Hitems]; [lia|].
  set (w1 := set_queues (λ qs, <[L + 1 := items ++ [message i]]> qs) w0).
  assert (Hsend : Manager_send (mkManager [n; S (S n); S n] ps) (message i) w0
                  = (Ret (), w1)).
  { apply Manager_send_ok; [|done]. unfold entry_channel. simpl. by rewrite Ho1. }
  assert (Hw1 : silent_world L n w1).
  { unfold silent_world. simpl. rewrite length_insert.
    rewrite !(list_lookup_insert_ne _ (L + 1)) by lia. by split_and!. }
  assert (Hpush : ∃ c1 w2,
            push_message (mkClient (mkManager [n; S (S n); S n] ps) uuid r) (message i) w0
            = (Ret c1, w2)
            ∧ services (manager c1) = [n; S (S n); S n]
            ∧ silent_world L n w2 ∧ socket w2 = socket w0).
  { unfold push_message. rewrite (bind_Ret _ _ _ _ _ Hsend). simpl.
    destruct r; simpl.
    - eexists _, _. split; [reflexivity|]. by split_and!.
    - unfold Manager_start. simpl.
      unfold Process_start, get_obj, bind, ret. simpl.
      rewrite Ho1. simpl. rewrite Ho2. simpl. rewrite Ho3. simpl.
      eexists _, _. split; [reflexivity|]. simpl.
      destruct Hw1 as (? & ? & ? & ? & Hp1 & ? & ? & ?).
      unfold silent_world. simpl. split_and!; auto.
      repeat (apply Forall_app; split); auto; apply Forall_singleton; simpl;
        unfold chain_copy; auto. }
  destruct Hpush as (c1 & w2 & Hpush & Hs1 & Hw2 & Hsock2).
  pose proof (silent_turns L n (busy i) w2 Hw2) as Hw3.
  set (w3 := turns stt_provider tts_provider (busy i) w2) in *.
  destruct (is_quiet_run_workers stt_provider tts_provider (busy i) w2) as (_ & _ & _ & Hsock3).
  simpl in Hsock3. fold (turns stt_provider tts_provider (busy i) w2) in Hsock3.
  fold w3 in Hsock3.
  assert (Hx : exit_channel (manager c1) w3 = Some (L + 3)).
  { destruct Hw3 as (_ & _ & Ho3' & _). unfold exit_channel. rewrite Hs1. simpl.
    by rewrite Ho3'. }
  assert (Hq3' : queues w3 !! (L + 3) = Some []) by (by destruct Hw3 as (_&_&_&_&_&_&_&?)).
  pose proof (Manager_receive_nonblocking stt_provider tts_provider
                (manager c1) w3 (L + 3) [] None [] Hx Hq3') as Hrecv.
  set (w4 := set_socket (λ evs, evs ++ [Sent (VBytes [])]) w3).
  assert (Hw4 : silent_world L n w4) by exact Hw3.
  pose proof (silent_turns L n (idle i) w4 Hw4) as Hw5.
  destruct (is_quiet_run_workers stt_provider tts_provider (idle i) w4) as (_ & _ & _ & Hsock5).
  simpl in Hsock5. fold (turns stt_provider tts_provider (idle i) w4) in Hsock5.
  exists c1, (turns stt_provider tts_provider (idle i) w4). split_and!; auto.
  - unfold bind at 1. unfold websocket_recv. fold w0.
    rewrite (bind_Ret _ _ _ _ _ Hpush).
    unfold bind at 1. unfold run_workers at 1.
    fold (turns stt_provider tts_provider (busy i) w2). fold w3.
    unfold poll_and_respond. unfold bind at 1. unfold bind at 1. rewrite Hrecv. simpl.
    reflexivity.
  - rewrite Hsock5. simpl. rewrite Hsock3, Hsock2. simpl. by rewrite <- app_assoc.
Qed.

Lemma serve_silent (L n : nat) (inbound : list Inbound) : ∀ (c : Client) (w : World),
  services (manager c) = [n; S (S n); S n] →
  silent_world L n w →
  ∃ c' w', serve stt_provider tts_provider c inbound w = (Ret c', w')
    ∧ socket w'
      = socket w ++ exchange inbound (replicate (length inbound) (VBytes [])).
Proof.
  induction inbound as [|i rest IH]; intros c w Hs Hw.
  - exists c, w. simpl. unfold ret, exchange. simpl. by rewrite app_nil_r.
  - destruct (handle_message_silent L n c i w Hs Hw) as (c1 & w1 & Hrun & Hs1 & Hw1 & Hsock1).
    destruct (IH c1 w1 Hs1 Hw1) as (c' & w' & Hserve & Hsock').
    exists c', w'. simpl. rewrite (bind_Ret _ _ _ _ _ Hrun). split; [done|].
    rewrite Hsock', Hsock1. unfold exchange. simpl. by rewrite <- !app_assoc.
Qed.

(** X11.  When the recognition stage never puts anything on its output
    channel, because the provider reports no event or because the first
    event of every chunk has no candidate and kills the worker, the peer of
    a connection gets the empty byte string in answer to every message,
    whatever the messages and however the workers, those of other chains
    included, are scheduled; [handle_connections] itself never fails. *)
Theorem silent_recognition_gives_empty_responses (uuid : N) (inbound : list Inbound)
    (w : World) :
  Forall (λ pr, refs_below (length (queues w)) (self_copy pr)) (procs w) →
  ∃ (c' : Client) (w' : World),
    handle_connections stt_provider tts_provider uuid inbound w = (Ret c', w')
    ∧ socket w'
      = socket w ++ exchange inbound (replicate (length inbound) (VBytes [])).
Proof.
  intros Hprocs.
  destruct (connection_setup stt_provider tts_provider uuid inbound w)
    as (w4 & Hhead & Ho1 & Ho2 & Ho3 & Hq & Hp & Hsock).
  destruct (serve_silent (length (queues w)) (length (objs w)) inbound
              (mkClient (mkManager
                 [length (objs w); S (S (length (objs w))); S (length (objs w))] [])
                 uuid false) w4)
    as (c' & w' & Hserve & Hsock'); [done| |].
  - unfold silent_world. rewrite Hq, Hp, length_app. simpl. split_and!; auto.
    + lia.
    + eapply Forall_impl; [exact Hprocs|]. intros pr Hpr. by left.
    + rewrite lookup_app_r by lia. by rewrite Nat.sub_diag.
    + rewrite lookup_app_r by lia.
      by replace (length (queues w) + 2 - length (queues w)) with 2 by lia.
    + rewrite lookup_app_r by lia.
      by replace (length (queues w) + 3 - length (queues w)) with 3 by lia.
  - exists c', w'. rewrite Hhead. split; [done|]. by rewrite Hsock', Hsock.
Qed.

End Silent.

(** ** One message through the three stages *)

(** X12.  The first message of a connection, when each of the three
    workers then takes one turn in the order of the chain: if the
    recognition stage emits at least one transcript for the message and
    the synthesis provider returns at least one piece of audio for the
    first transcript, the response sent to the peer is that first piece of
    audio (the empty byte string if the piece is falsy). *)
Theorem first_message_end_to_end (uuid : N) (w : World) (m t a : PyVal)
    (ts audio : list PyVal) (after : list pid) :
  (heard (stt_provider m)).1 = t :: ts →
  tts_provider t = a :: audio →
  ∃ (c' : Client) (w' : World),
    handle_connections stt_provider tts_provider uuid
      [mkInbound m [length (procs w); S (length (procs w)); S (S (length (procs w)))]
         after] w
    = (Ret c', w')
    ∧ socket w' = socket w ++ [Received m; Sent (if truthy a then a else VBytes [])].
Proof.
  intros Hheard Htts.
  destruct (connection_setup stt_provider tts_provider uuid
              [mkInbound m [length (procs w); S (length (procs w));
                            S (S (length (procs w)))] after] w)
    as (w4 & Hhead & Ho1 & Ho2 & Ho3 & Hq & Hp & Hsock).
  set (n := length (objs w)) in *. set (L := length (queues w)) in *.
  set (P := length (procs w)) in *.
  set (A := mkProcess n (stt_rec L) true).
  set (B := mkProcess (S (S n)) (ans_rec L) true).
  set (C := mkProcess (S n) (tts_rec L) true).
  assert (Hlen4 : length (queues w4) = L + 4).
  { rewrite Hq, length_app. simpl. fold L. lia. }
  assert (Hnew : ∀ k, k < 4 → queues w4 !! (L + k) = Some []).
  { intros k Hk. rewrite Hq, lookup_app_r by (fold L; lia). fold L.
    replace (L + k - L) with k by lia. by destruct k as [|[|[|[|]]]]; [..|lia]. }
  pose proof (Hnew 0 ltac:(lia)) as HqL. rewrite Nat.add_0_r in HqL.
  set (c1 := mkClient (mkManager [n; S (S n); S n] [P; S P; S (S P)]) uuid true).
  set (w0 := set_socket (λ evs, evs ++ [Received m]) w4).
  set (w2 := mkWorld (objs w4) (<[L + 1 := [m]]> (queues w4)) (procs w ++ [A; B; C])
               (socket w0)).
  assert (Hpush : push_message (mkClient (mkManager [n; S (S n); S n] []) uuid false) m w0
                  = (Ret c1, w2)).
  { unfold push_message.
    rewrite (bind_Ret _ _ _ _ _
               (Manager_send_ok (mkManager [n; S (S n); S n] []) m w0 (L + 1) []
                  ltac:(unfold entry_channel; simpl; by rewrite Ho1) (Hnew 1 ltac:(lia)))).
    simpl. unfold Manager_start. simpl.
    unfold Process_start, get_obj, bind, ret. simpl.
    rewrite Ho1. simpl. rewrite Ho2. simpl. rewrite Ho3. simpl.
    unfold c1, w2, set_procs, set_queues. simpl.
    rewrite Hp, !length_app. simpl. fold P.
    rewrite <- !app_assoc. simpl.
    replace (P + 1 + 1) with (S (S P)) by lia. by replace (P + 1) with (S P) by lia. }
  (* the three turns *)
  assert (HpA : procs w2 !! P = Some A).
  { simpl. rewrite lookup_app_r by (fold P; lia). fold P. by rewrite Nat.sub_diag. }
  assert (Hq2a : queues w2 !! (L + 1) = Some [m]).
  { simpl. apply list_lookup_insert_eq. lia. }
  assert (Hq2b : queues w2 !! L = Some []).
  { simpl. by rewrite list_lookup_insert_ne by lia. }
  pose proof (run_worker_emits P n (stt_rec L) w2 (L + 1) L m [] [] HpA eq_refl eq_refl
                ltac:(lia) Hq2a Hq2b) as Hturn1.
  unfold emitted in Hturn1. simpl in Hturn1. rewrite Hheard in Hturn1. simpl in Hturn1.
  set (w5 := mkWorld _ _ _ _) in Hturn1.
  assert (HpB : procs w5 !! S P = Some B).
  { unfold w5. simpl. rewrite ?list_lookup_insert_ne by lia.
    rewrite lookup_app_r by (fold P; lia). fold P. by replace (S P - P) with 1 by lia. }
  assert (Hq5a : queues w5 !! L = Some (t :: ts)).
  { unfold w5. simpl. apply list_lookup_insert_eq. rewrite !length_insert. lia. }
  assert (Hq5b : queues w5 !! (L + 2) = Some []).
  { unfold w5. simpl. rewrite !list_lookup_insert_ne by lia. apply (Hnew 2). lia. }
  pose proof (run_worker_emits (S P) (S (S n)) (ans_rec L) w5 L (L + 2) t ts []
                HpB eq_refl eq_refl ltac:(lia) Hq5a Hq5b) as Hturn2.
  unfold emitted in Hturn2. simpl in Hturn2.
  set (w6 := mkWorld _ _ _ _) in Hturn2.
  assert (HpC : procs w6 !! S (S P) = Some C).
  { unfold w6. simpl. rewrite ?list_lookup_insert_ne by lia.
    rewrite lookup_app_r by (fold P; lia). fold P. by replace (S (S P) - P) with 2 by lia. }
  assert (Hq6a : queues w6 !! (L + 2) = Some [t]).
  { unfold w6. simpl. apply list_lookup_insert_eq. rewrite !length_insert. lia. }
  assert (Hq6b : queues w6 !! (L + 3) = Some []).
  { unfold w6. simpl. rewrite !list_lookup_insert_ne by lia. apply (Hnew 3). lia. }
  pose proof (run_worker_emits (S (S P)) (S n) (tts_rec L) w6 (L + 2) (L + 3) t [] []
                HpC eq_refl eq_refl ltac:(lia) Hq6a Hq6b) as Hturn3.
  unfold emitted in Hturn3. simpl in Hturn3. rewrite Htts in Hturn3. simpl in Hturn3.
  set (w7 := mkWorld _ _ _ _) in Hturn3.
  assert (Hturns : turns stt_provider tts_provider [P; S P; S (S P)] w2 = w7).
  { unfold turns. simpl. by rewrite Hturn1, Hturn2, Hturn3. }
  assert (Hx : exit_channel (manager c1) w7 = Some (L + 3)).
  { unfold exit_channel. simpl. by rewrite Ho3. }
  assert (Hq7 : queues w7 !! (L + 3) = Some (a :: audio)).
  { unfold w7. simpl. apply list_lookup_insert_eq. rewrite !length_insert. lia. }
  pose proof (Manager_receive_nonblocking stt_provider tts_provider
                (manager c1) w7 (L + 3) (a :: audio) None [] Hx Hq7) as Hrecv.
  set (w8 := set_queues (λ qs, <[L + 3 := audio]> qs) w7) in Hrecv.
  set (r := if negb (truthy a) then VBytes [] else a).
  set (w9 := set_socket (λ evs, evs ++ [Sent r]) w8).
  destruct (is_quiet_run_workers stt_provider tts_provider after w9) as (_ & _ & _ & Hsock9).
  simpl in Hsock9. fold (turns stt_provider tts_provider after w9) in Hsock9.
  exists c1, (turns stt_provider tts_provider after w9). split.
  - rewrite Hhead. simpl. unfold handle_message. simpl.
    unfold bind at 1. unfold bind at 1. unfold websocket_recv. fold w0.
    rewrite (bind_Ret _ _ _ _ _ Hpush).
    unfold bind at 1. unfold run_workers at 1.
    fold (turns stt_provider tts_provider [P; S P; S (S P)] w2). rewrite Hturns.
    unfold poll_and_respond. unfold bind at 1. unfold bind at 1. rewrite Hrecv.
    unfold websocket_send. fold r. fold w9.
    unfold bind, run_workers, ret. reflexivity.
  - rewrite Hsock9. simpl. rewrite Hsock, <- app_assoc. simpl.
    unfold r. by destruct (truthy a).
Qed.

(** ** Workers of stages that are not bound *)


End MoreProperties.

(** ** Instances of the further properties *)

Lemma send_appends_in_every_state_witness :
  ∃ (q : qid) (items : list PyVal),
    entry_channel (manager passthrough_client) passthrough_world = Some q
    ∧ queues passthrough_world !! q = Some items
    ∧ Manager_send (manager passthrough_client) (VBytes [Byte.x61]) passthrough_world
      = (Ret (), set_queues (λ qs, <[q := items ++ [VBytes [Byte.x61]]]> qs)
                   passthrough_world).
Proof.
  apply (send_appends_in_every_state stt_silent tts_silent passthrough_client
           passthrough_world (VBytes [Byte.x61])).
  exact passthrough_session_state.
Defined.

Lemma worker_touches_only_its_channels_witness :
  let pr := mkProcess 0 (mkService AnswerService (Some 1) (Some 0)) true in
  let w' := run_worker stt_silent tts_silent 0 passthrough_running in
  (∀ q, ¬ touches (self_copy pr) q → queues w' !! q = queues passthrough_running !! q)
  ∧ objs w' = objs passthrough_running
  ∧ length (queues w') = length (queues passthrough_running)
  ∧ socket w' = socket passthrough_running
  ∧ length (procs w') = length (procs passthrough_running)
  ∧ (∀ p', p' ≠ 0 → procs w' !! p' = procs passthrough_running !! p')
  ∧ (∃ pr', procs w' !! 0 = Some pr'
            ∧ target pr' = target pr ∧ self_copy pr' = self_copy pr).
Proof.
  apply (worker_touches_only_its_channels stt_silent tts_silent 0
           (mkProcess 0 (mkService AnswerService (Some 1) (Some 0)) true)
           passthrough_running).
  reflexivity.
Defined.

Lemma worker_turn_witness :
  run_worker stt_silent tts_silent 0 passthrough_running
  = match true, [VBytes [Byte.x61]; VBytes [Byte.x62]] with
    | true, v :: rest =>
        mkWorld (objs passthrough_running)
          (<[0 := [] ++ (emitted stt_silent tts_silent AnswerService v).1]>
             (<[1 := rest]> (queues passthrough_running)))
          (<[0 := mkProcess 0 (mkService AnswerService (Some 1) (Some 0))
                    (emitted stt_silent tts_silent AnswerService v).2]>
             (procs passthrough_running))
          (socket passthrough_running)
    | _, _ => passthrough_running
    end.
Proof.
  apply (worker_turn stt_silent tts_silent 0 0
           (mkService AnswerService (Some 1) (Some 0)) true passthrough_running 1 0
           [VBytes [Byte.x61]; VBytes [Byte.x62]] []); try reflexivity.
  lia.
Defined.

Lemma passthrough_moves_oldest_first_witness :
  let w' := turns stt_silent tts_silent (replicate 3 0) passthrough_running in
  queues w' !! 1 = Some (drop 3 [VBytes [Byte.x61]; VBytes [Byte.x62]])
  ∧ queues w' !! 0 = Some ([] ++ take 3 [VBytes [Byte.x61]; VBytes [Byte.x62]])
  ∧ (∀ q, q ≠ 1 → q ≠ 0 → queues w' !! q = queues passthrough_running !! q)
  ∧ objs w' = objs passthrough_running ∧ procs w' = procs passthrough_running
  ∧ socket w' = socket passthrough_running.
Proof.
  apply (passthrough_moves_oldest_first stt_silent tts_silent 0 0
           (mkService AnswerService (Some 1) (Some 0)) 1 0 3 passthrough_running
           [VBytes [Byte.x61]; VBytes [Byte.x62]] []); try reflexivity.
  lia.
Defined.

Lemma receive_returns_oldest_first_witness :
  ∃ (q : qid) (items : list PyVal),
    exit_channel (manager passthrough_client) passthrough_world = Some q
    ∧ queues passthrough_world !! q = Some items
    ∧ receive_n stt_silent tts_silent 2 (manager passthrough_client) passthrough_world
      = (Ret (take 2 items ++ replicate (2 - length items) VNone),
         mkWorld (objs passthrough_world) (<[q := drop 2 items]> (queues passthrough_world))
           (procs passthrough_world) (socket passthrough_world)).
Proof.
  apply (receive_returns_oldest_first stt_silent tts_silent passthrough_client
           passthrough_world 2).
  exact passthrough_session_state.
Defined.

Lemma passthrough_chain_is_fifo_witness :
  ∃ (self self' : Manager) (w1 w2 w' : World),
    Manager_init [0] one_unbound = (Ret self, w1)
    ∧ Manager_start self w1 = (Ret self', w2)
    ∧ (let! _ := for_each [VBytes [Byte.x61]; VBytes [Byte.x62]] (Manager_send self') in
       let! _ := run_workers stt_silent tts_silent
                   (replicate (length [VBytes [Byte.x61]; VBytes [Byte.x62]])
                      (length (procs one_unbound))) in
       receive_n stt_silent tts_silent
         (S (length [VBytes [Byte.x61]; VBytes [Byte.x62]])) self') w2
      = (Ret ([VBytes [Byte.x61]; VBytes [Byte.x62]] ++ [VNone]), w').
Proof.
  apply (passthrough_chain_is_fifo stt_silent tts_silent one_unbound 0
           (mkService AnswerService None None) [VBytes [Byte.x61]; VBytes [Byte.x62]]);
    reflexivity.
Defined.

Lemma chains_share_no_channel_witness :
  ∃ (wA wB : World),
    Manager_init [0; 1] three_unbound = (Ret (mkManager [0; 1] []), wA)
    ∧ Manager_init [2] wA = (Ret (mkManager [2] []), wB)
    ∧ (∀ sa, sa ∈ [0; 1] → objs wB !! sa = objs wA !! sa)
    ∧ (∀ sa sb oa ob qa qb,
         sa ∈ [0; 1] → sb ∈ [2] →
         objs wB !! sa = Some oa → objs wB !! sb = Some ob →
         touches oa qa → touches ob qb → qa ≠ qb).
Proof.
  apply (chains_share_no_channel [0; 1] [2] three_unbound).
  - apply (bool_decide_unpack _). vm_compute. reflexivity.
  - apply (bool_decide_unpack _). vm_compute. reflexivity.
  - intros s Hs Hs'. apply list_elem_of_singleton in Hs'. subst s.
    apply elem_of_cons in Hs as [Hs|Hs]; [discriminate|].
    apply list_elem_of_singleton in Hs. discriminate.
  - apply (bool_decide_unpack _). vm_compute. reflexivity.
Defined.

Lemma unstarted_chain_never_delivers_witness :
  ∃ (self : Manager) (w1 w2 w' : World),
    Manager_init [0; 1; 2] three_unbound = (Ret self, w1)
    ∧ Manager_send self (VBytes [Byte.x61]) w1 = (Ret (), w2)
    ∧ Manager_receive stt_silent tts_silent self true (Some 5) [0; 1; 2] w2
      = (Raise QueueEmpty, w').
Proof.
  apply (unstarted_chain_never_delivers stt_silent tts_silent [0; 1; 2] three_unbound
           (VBytes [Byte.x61]) (Some 5) [0; 1; 2]).
  - discriminate.
  - apply (bool_decide_unpack _). vm_compute. reflexivity.
  - apply (bool_decide_unpack _). vm_compute. reflexivity.
  - constructor.
Defined.

Lemma silent_recognition_gives_empty_responses_witness :
  ∃ (c' : Client) (w' : World),
    handle_connections stt_no_candidates tts_beep 7
      [mkInbound (VBytes [Byte.x00]) [0; 1; 2] []; mkInbound (VBytes [Byte.x01]) [0; 1; 2] [0]]
      three_unbound
    = (Ret c', w')
    ∧ socket w'
      = socket three_unbound
        ++ exchange
             [mkInbound (VBytes [Byte.x00]) [0; 1; 2] [];
              mkInbound (VBytes [Byte.x01]) [0; 1; 2] [0]]
             (replicate 2 (VBytes [])).
Proof.
  apply (silent_recognition_gives_empty_responses stt_no_candidates tts_beep
           (λ _, eq_refl) 7%N
           [mkInbound (VBytes [Byte.x00]) [0; 1; 2] [];
            mkInbound (VBytes [Byte.x01]) [0; 1; 2] [0]] three_unbound).
  constructor.
Defined.

Lemma first_message_end_to_end_witness :
  ∃ (c' : Client) (w' : World),
    handle_connections stt_hello tts_beep 7
      [mkInbound (VBytes [Byte.x00])
         [length (procs three_unbound); S (length (procs three_unbound));
          S (S (length (procs three_unbound)))] []] three_unbound
    = (Ret c', w')
    ∧ socket w'
      = socket three_unbound
        ++ [Received (VBytes [Byte.x00]);
            Sent (if truthy (VBytes [Byte.x01; Byte.x02])
                  then VBytes [Byte.x01; Byte.x02] else VBytes [])].
Proof.
  apply (first_message_end_to_end stt_hello tts_beep 7%N three_unbound
           (VBytes [Byte.x00]) (VStr "hello") (VBytes [Byte.x01; Byte.x02]) [] [] []).
  - unfold stt_hello. simpl. by rewrite lookup_singleton_eq.
  - reflexivity.
Defined.

